(** * camera_feed: the MJPEG streaming loop and its launcher

    A shallow embedding of [camera_feed_server.py] (the Flask server that
    reads frames from an OpenCV capture, encodes them as JPEG and yields
    them as a multipart body) and of [stream.py] (the launcher that shells
    out to ffmpeg, ssh and uv).

    What lives outside the repository is an oracle of the environment:
    the capture device, the wall clock, [cv2.resize] and [cv2.imencode].
    Each oracle is indexed by the number of calls made so far, so the
    model is deterministic and runs inside Rocq. *)

From Stdlib Require Import ZArith List Bool String Ascii Lia QArith.
From Stdlib.Strings Require Import Byte.
From Stdlib Require Import DecimalString.
Import ListNotations.

Local Open Scope Z_scope.

(** ** Bytes *)

Module Bytes.

(** A Python [bytes] literal: its characters, one byte each. *)
Definition lit (s : string) : list byte := list_byte_of_string s.

Definition CR : byte := byte_of_ascii (ascii_of_nat 13).
Definition LF : byte := byte_of_ascii (ascii_of_nat 10).
Definition CRLF : list byte := [CR; LF].

End Bytes.

(** ** Time stamps

    [time.time()] returns a float and the loop subtracts, divides and
    compares such values.  The loop is written over an interface with
    exactly the operations it uses, so that nothing depends on how the
    arithmetic rounds. *)

Class Clock (T : Type) := {
  t_of_int : Z -> T;            (* an int used where a float is expected *)
  t_sub : T -> T -> T;          (* a - b *)
  t_inv : Z -> T;               (* 1.0 / n *)
  t_lt : T -> T -> bool;        (* a < b *)
  t_ge5 : T -> bool             (* a >= 5.0 *)
}.

#[export] Instance Clock_Q : Clock Q := {
  t_of_int := inject_Z;
  t_sub := Qminus;
  t_inv := fun n => Qinv (inject_Z n);
  t_lt := fun a b => match Qcompare a b with Lt => true | _ => false end;
  t_ge5 := fun a => match Qcompare a (inject_Z 5) with Lt => false | _ => true end
}.

(** ** The server: module state *)

Inductive device_id :=
| DevIndex (i : Z)
| DevPath (p : string).

(** A frame as [read()] returns it: a matrix of pixels. *)
Record Frame := {
  f_rows : Z;
  f_cols : Z;
  f_data : list byte
}.

(** The object [cv2.VideoCapture(DEVICE)] returns.  [cap_id] is the number
    of the constructor call that made it, [cap_opened] what [isOpened()]
    answers. *)
Record Capture := {
  cap_id : nat;
  cap_opened : bool
}.

(** The module-level variables of [camera_feed_server.py]. *)
Record Globals := {
  camera : option Capture;
  DEVICE : device_id;
  QUALITY : Z;
  WIDTH : Z;
  HEIGHT : Z;
  FPS_LIMIT : option Z;
  DEBUG : bool
}.

(** The values the module assigns when it is loaded. *)
Definition module_globals : Globals := {|
  camera := None;
  DEVICE := DevIndex 0;
  QUALITY := 50;
  WIDTH := 640;
  HEIGHT := 480;
  FPS_LIMIT := None;
  DEBUG := false
|}.

Definition set_camera (c : option Capture) (g : Globals) : Globals := {|
  camera := c;
  DEVICE := DEVICE g;
  QUALITY := QUALITY g;
  WIDTH := WIDTH g;
  HEIGHT := HEIGHT g;
  FPS_LIMIT := FPS_LIMIT g;
  DEBUG := DEBUG g
|}.

(** The stream configuration: every global but the camera. *)
Definition same_config (g g' : Globals) : Prop :=
  DEVICE g' = DEVICE g /\ QUALITY g' = QUALITY g /\ WIDTH g' = WIDTH g /\
  HEIGHT g' = HEIGHT g /\ FPS_LIMIT g' = FPS_LIMIT g /\ DEBUG g' = DEBUG g.

(** How many calls of each kind the process has made to the outside. *)
Record World := {
  opens : nat;      (* cv2.VideoCapture(...) constructed *)
  reads : nat;      (* read() on an opened capture *)
  ticks : nat       (* time.time() *)
}.

Definition world0 : World := {| opens := 0; reads := 0; ticks := 0 |}.

Inductive level := INFO | ERROR | DEBUG_.

Inductive log_msg :=
| MsgInitializing (d : device_id)
| MsgOpenFailed (d : device_id)
| MsgCameraOpened
| MsgBackend                    (* the values of these three come from *)
| MsgNativeResolution           (* the device and are not recorded *)
| MsgNativeFps
| MsgOutputResolution (w h : Z)
| MsgJpegQuality (q : Z)
| MsgFpsLimit (f : Z)
| MsgStartGeneration
| MsgReadFailed
| MsgStats (frames : Z)
| MsgEncodeFailed
| MsgFirstFrameSize (n : Z).

Inductive exn :=
| RuntimeError (d : device_id).

Section Server.

Context {T : Type} `{Clock T}.

(** The environment: what the outside answers to the k-th call. *)
Record Env := {
  open_ok : nat -> bool;
  dev_read : nat -> option Frame;
  clock : nat -> T;
  resize : Frame -> Z -> Z -> Frame;
  imencode : Frame -> Z -> option (list byte)
}.

Inductive event :=
| EvLog (l : level) (m : log_msg)
| EvOpen (d : device_id)
| EvSetBufferSize (n : Z)
| EvSleep (d : T)
| EvRead (ok : bool)
| EvYield (segment : list byte).

Variable env : Env.

(** *** Primitive calls *)

Definition VideoCapture (w : World) : Capture * World :=
  ({| cap_id := opens w; cap_opened := open_ok env (opens w) |},
   {| opens := S (opens w); reads := reads w; ticks := ticks w |}).

(** [cam.read()]: a capture that is not opened answers failure without
    touching the device. *)
Definition cam_read (cam : Capture) (w : World) : option Frame * World :=
  if cap_opened cam
  then (dev_read env (reads w),
        {| opens := opens w; reads := S (reads w); ticks := ticks w |})
  else (None, w).

Definition time_time (w : World) : T * World :=
  (clock env (ticks w),
   {| opens := opens w; reads := reads w; ticks := S (ticks w) |}).

(** Python truthiness of [FPS_LIMIT]: [None] and [0] are false. *)
Definition fps_cap (f : option Z) : option Z :=
  match f with
  | Some n => if n =? 0 then None else Some n
  | None => None
  end.

(** *** get_camera *)

Definition get_camera (g : Globals) (w : World)
  : list event * (exn + Capture) * Globals * World :=
  match camera g with
  | None =>
      let '(cam, w1) := VideoCapture w in
      let g1 := set_camera (Some cam) g in
      let opening := [EvLog INFO (MsgInitializing (DEVICE g)); EvOpen (DEVICE g)] in
      if negb (cap_opened cam) then
        (opening ++ [EvLog ERROR (MsgOpenFailed (DEVICE g))],
         inl (RuntimeError (DEVICE g)), g1, w1)
      else
        (opening ++
         [EvSetBufferSize 1;
          EvLog INFO MsgCameraOpened;
          EvLog INFO MsgBackend;
          EvLog INFO MsgNativeResolution;
          EvLog INFO MsgNativeFps;
          EvLog INFO (MsgOutputResolution (WIDTH g) (HEIGHT g));
          EvLog INFO (MsgJpegQuality (QUALITY g))] ++
         match fps_cap (FPS_LIMIT g) with
         | Some f => [EvLog INFO (MsgFpsLimit f)]
         | None => []
         end,
         inr cam, g1, w1)
  | Some cam => ([], inr cam, g, w)
  end.

(** *** generate_frames *)

(** The locals of one generator. *)
Record Session := {
  last_frame_time : T;
  frame_count : Z;
  start_time : T;
  last_log_time : T
}.

(** One multipart segment, as the [yield] builds it. *)
Definition segment (frame_bytes : list byte) : list byte :=
  (Bytes.lit "--frame" ++ Bytes.CRLF ++
   Bytes.lit "Content-Type: image/jpeg" ++ Bytes.CRLF ++ Bytes.CRLF)
  ++ frame_bytes ++ Bytes.CRLF.

(** The rate limiter at the head of the loop body. *)
Definition pace (g : Globals) (s : Session) (w : World)
  : list event * Session * World :=
  match fps_cap (FPS_LIMIT g) with
  | Some f =>
      let '(current_time, w1) := time_time w in
      let time_since_last := t_sub current_time (last_frame_time s) in
      let min_frame_time := t_inv f in
      let slept :=
        if t_lt time_since_last min_frame_time
        then [EvSleep (t_sub min_frame_time time_since_last)]
        else [] in
      let '(now, w2) := time_time w1 in
      (slept,
       {| last_frame_time := now; frame_count := frame_count s;
          start_time := start_time s; last_log_time := last_log_time s |},
       w2)
  | None => ([], s, w)
  end.

(** The statistics line of debug mode. *)
Definition log_stats (g : Globals) (s : Session) (w : World)
  : list event * Session * World :=
  if DEBUG g then
    let '(current_time, w1) := time_time w in
    if t_ge5 (t_sub current_time (last_log_time s)) then
      ([EvLog DEBUG_ (MsgStats (frame_count s))],
       {| last_frame_time := last_frame_time s; frame_count := frame_count s;
          start_time := start_time s; last_log_time := current_time |},
       w1)
    else ([], s, w1)
  else ([], s, w).

(** How one turn of [while True] ends. *)
Inductive flow :=
| Break                 (* the read failed *)
| Continue              (* the encoder refused the frame *)
| Yielded.              (* a segment was yielded, the loop goes on *)

Definition loop_body (g : Globals) (cam : Capture) (s : Session) (w : World)
  : list event * flow * Session * World :=
  let '(ev_pace, s1, w1) := pace g s w in
  let '(r, w2) := cam_read cam w1 in
  match r with
  | None =>
      (ev_pace ++ [EvRead false; EvLog ERROR MsgReadFailed], Break, s1, w2)
  | Some frame =>
      let s2 := {| last_frame_time := last_frame_time s1;
                   frame_count := frame_count s1 + 1;
                   start_time := start_time s1;
                   last_log_time := last_log_time s1 |} in
      let '(ev_stats, s3, w3) := log_stats g s2 w2 in
      let frame' := resize env frame (WIDTH g) (HEIGHT g) in
      match imencode env frame' (QUALITY g) with
      | None =>
          (ev_pace ++ [EvRead true] ++ ev_stats ++ [EvLog ERROR MsgEncodeFailed],
           Continue, s3, w3)
      | Some frame_bytes =>
          (ev_pace ++ [EvRead true] ++ ev_stats ++
           (if DEBUG g && (frame_count s3 =? 1)
            then [EvLog DEBUG_ (MsgFirstFrameSize (Z.of_nat (List.length frame_bytes)))]
            else []) ++
           [EvYield (segment frame_bytes)],
           Yielded, s3, w3)
      end
  end.

(** Where a generator stands after some turns of its loop. *)
Inductive status :=
| Raised (e : exn)      (* get_camera raised before the loop *)
| Stopped               (* the loop was left by [break] *)
| Running.              (* the loop has more turns to make *)

Record Run := {
  trace : list event;
  outcome : status;
  session : option Session;
  globals : Globals;
  world : World
}.

(** [fuel] turns of the [while True] loop. *)
Fixpoint loop (fuel : nat) (g : Globals) (cam : Capture) (s : Session) (w : World)
  : list event * status * Session * World :=
  match fuel with
  | O => ([], Running, s, w)
  | S fuel' =>
      let '(ev, fl, s', w') := loop_body g cam s w in
      match fl with
      | Break => (ev, Stopped, s', w')
      | Continue | Yielded =>
          let '(evs, st, s'', w'') := loop fuel' g cam s' w' in
          (ev ++ evs, st, s'', w'')
      end
  end.

(** The generator, pulled until it has made [fuel] turns of its loop. *)
Definition generate_frames (fuel : nat) (g : Globals) (w : World) : Run :=
  let '(ev_cam, r, g1, w1) := get_camera g w in
  match r with
  | inl e =>
      {| trace := ev_cam; outcome := Raised e; session := None;
         globals := g1; world := w1 |}
  | inr cam =>
      let '(now, w2) := time_time w1 in
      let s0 := {| last_frame_time := t_of_int 0; frame_count := 0;
                   start_time := now; last_log_time := now |} in
      let '(evs, st, s, w3) := loop fuel g1 cam s0 w2 in
      {| trace := ev_cam ++ [EvLog INFO MsgStartGeneration] ++ evs;
         outcome := st; session := Some s; globals := g1; world := w3 |}
  end.

(** *** Observations on a trace *)

Definition yields (tr : list event) : list (list byte) :=
  flat_map (fun e => match e with EvYield b => [b] | _ => [] end) tr.

Definition sleeps (tr : list event) : list T :=
  flat_map (fun e => match e with EvSleep d => [d] | _ => [] end) tr.

Definition good_reads (tr : list event) : nat :=
  List.length (filter (fun e => match e with EvRead true => true | _ => false end) tr).

Definition all_reads (tr : list event) : nat :=
  List.length (filter (fun e => match e with EvRead _ => true | _ => false end) tr).

Definition encode_failures (tr : list event) : nat :=
  List.length (filter (fun e => match e with
                           | EvLog ERROR MsgEncodeFailed => true
                           | _ => false end) tr).

End Server.

Arguments Env T : clear implicits.
Arguments event T : clear implicits.
Arguments Session T : clear implicits.
Arguments Run T : clear implicits.

(** ** The server: command line

    [argparse] does the tokenising; what the script declares is the list
    of options, their types, defaults and actions.  The input is the list
    of options as [argparse] recognises them, each with its raw text. *)

Module Cli.

(** *** int(text), as [type=int] applies it

    [py_int] is [int] on ASCII text whose number of digits is below the
    interpreter's limit: blanks are the bytes 9 to 13 and 32, digits
    the bytes 48 to 57.  Decimal digits and blanks outside ASCII are not
    read here; the statements that hold for every conversion are made
    over [Startup], which takes [int] as a parameter. *)

Definition is_space (c : ascii) : bool :=
  let n := nat_of_ascii c in
  ((9 <=? n) && (n <=? 13) || (n =? 32))%nat.

Definition digit_value (c : ascii) : option Z :=
  let n := nat_of_ascii c in
  if ((48 <=? n) && (n <=? 57))%nat then Some (Z.of_nat n - 48) else None.

Definition is_underscore (c : ascii) : bool := (nat_of_ascii c =? 95)%nat.

Fixpoint lstrip (s : list ascii) : list ascii :=
  match s with
  | c :: r => if is_space c then lstrip r else s
  | [] => []
  end.

Definition strip (s : list ascii) : list ascii :=
  rev (lstrip (rev (lstrip s))).

(** Digits after the first one; an underscore may stand between two
    digits. *)
Fixpoint more_digits (acc : Z) (after_underscore : bool) (s : list ascii)
  : option Z :=
  match s with
  | [] => if after_underscore then None else Some acc
  | c :: r =>
      match digit_value c with
      | Some d => more_digits (10 * acc + d) false r
      | None =>
          if is_underscore c && negb after_underscore
          then more_digits acc true r
          else None
      end
  end.

Definition digits (s : list ascii) : option Z :=
  match s with
  | c :: r =>
      match digit_value c with
      | Some d => more_digits d false r
      | None => None
      end
  | [] => None
  end.

(** [None] is [ValueError]. *)
Definition py_int (text : string) : option Z :=
  match strip (list_ascii_of_string text) with
  | c :: r =>
      if (nat_of_ascii c =? 45)%nat then option_map Z.opp (digits r)
      else if (nat_of_ascii c =? 43)%nat then digits r
      else digits (c :: r)
  | [] => None
  end.

(** *** The parser *)

Inductive option_given :=
| OptDevice (v : string)
| OptListDevices
| OptPort (v : string)
| OptHost (v : string)
| OptQuality (v : string)
| OptWidth (v : string)
| OptHeight (v : string)
| OptFps (v : string)
| OptDebug.

Record Namespace := {
  device : string;
  list_devices : bool;
  port : Z;
  host : string;
  quality : Z;
  width : Z;
  height : Z;
  fps : option Z;
  debug : bool
}.

(** The [default=] of every [add_argument]. *)
Definition defaults : Namespace := {|
  device := "0";
  list_devices := false;
  port := 5000;
  host := "0.0.0.0";
  quality := 50;
  width := 640;
  height := 480;
  fps := None;
  debug := false
|}.

(** One option stored into the namespace; [None] is the usage error of
    a value that [int] refuses. *)
Definition store (ns : Namespace) (o : option_given) : option Namespace :=
  let with_int (v : string) (k : Z -> Namespace) := option_map k (py_int v) in
  match o with
  | OptDevice v =>
      Some {| device := v; list_devices := list_devices ns; port := port ns;
              host := host ns; quality := quality ns; width := width ns;
              height := height ns; fps := fps ns; debug := debug ns |}
  | OptListDevices =>
      Some {| device := device ns; list_devices := true; port := port ns;
              host := host ns; quality := quality ns; width := width ns;
              height := height ns; fps := fps ns; debug := debug ns |}
  | OptPort v =>
      with_int v (fun n =>
        {| device := device ns; list_devices := list_devices ns; port := n;
           host := host ns; quality := quality ns; width := width ns;
           height := height ns; fps := fps ns; debug := debug ns |})
  | OptHost v =>
      Some {| device := device ns; list_devices := list_devices ns; port := port ns;
              host := v; quality := quality ns; width := width ns;
              height := height ns; fps := fps ns; debug := debug ns |}
  | OptQuality v =>
      with_int v (fun n =>
        {| device := device ns; list_devices := list_devices ns; port := port ns;
           host := host ns; quality := n; width := width ns;
           height := height ns; fps := fps ns; debug := debug ns |})
  | OptWidth v =>
      with_int v (fun n =>
        {| device := device ns; list_devices := list_devices ns; port := port ns;
           host := host ns; quality := quality ns; width := n;
           height := height ns; fps := fps ns; debug := debug ns |})
  | OptHeight v =>
      with_int v (fun n =>
        {| device := device ns; list_devices := list_devices ns; port := port ns;
           host := host ns; quality := quality ns; width := width ns;
           height := n; fps := fps ns; debug := debug ns |})
  | OptFps v =>
      with_int v (fun n =>
        {| device := device ns; list_devices := list_devices ns; port := port ns;
           host := host ns; quality := quality ns; width := width ns;
           height := height ns; fps := Some n; debug := debug ns |})
  | OptDebug =>
      Some {| device := device ns; list_devices := list_devices ns; port := port ns;
              host := host ns; quality := quality ns; width := width ns;
              height := height ns; fps := fps ns; debug := true |}
  end.

Fixpoint parse_from (ns : Namespace) (argv : list option_given)
  : option Namespace :=
  match argv with
  | [] => Some ns
  | o :: rest =>
      match store ns o with
      | Some ns' => parse_from ns' rest
      | None => None
      end
  end.

Definition parse_args (argv : list option_given) : option Namespace :=
  parse_from defaults argv.

(** *** The [__main__] block, up to [app.run] *)

Inductive startup :=
| UsageError                  (* argparse exits with status 2 *)
| ListedDevices               (* --list-devices: sys.exit(0) *)
| Serving (g : Globals) (bind_host : string) (bind_port : Z).

Definition main (argv : list option_given) : startup :=
  match parse_args argv with
  | None => UsageError
  | Some args =>
      let DEBUG' := if debug args then true else DEBUG module_globals in
      if list_devices args then ListedDevices
      else
        let DEVICE' :=
          match py_int (device args) with
          | Some n => DevIndex n
          | None => DevPath (device args)
          end in
        Serving {| camera := camera module_globals;
                   DEVICE := DEVICE';
                   QUALITY := quality args;
                   WIDTH := width args;
                   HEIGHT := height args;
                   FPS_LIMIT := fps args;
                   DEBUG := DEBUG' |}
                (host args) (port args)
  end.

(** Which options a command line mentions. *)
Definition gives_quality (o : option_given) : bool :=
  match o with OptQuality _ => true | _ => false end.
Definition gives_width (o : option_given) : bool :=
  match o with OptWidth _ => true | _ => false end.
Definition gives_height (o : option_given) : bool :=
  match o with OptHeight _ => true | _ => false end.
Definition gives_fps (o : option_given) : bool :=
  match o with OptFps _ => true | _ => false end.
Definition gives_host (o : option_given) : bool :=
  match o with OptHost _ => true | _ => false end.
Definition gives_port (o : option_given) : bool :=
  match o with OptPort _ => true | _ => false end.

Definition supplied (p : option_given -> bool) (argv : list option_given) : bool :=
  existsb p argv.

End Cli.

(** ** The launcher, [stream.py] *)

Module Launcher.

Local Open Scope string_scope.

Inductive mode := Setup | Listen | Stream | Web | All.

(** The namespace [p.parse_args()] returns. *)
Record Args := {
  a_mode : mode;
  a_remote : option string;
  a_local : option string;
  a_port : string;
  a_udp : bool;
  a_web_port : string;
  a_device : string
}.

(** What the script does to the outside. *)
Inductive action :=
| Run (cmd : string)          (* subprocess.run(cmd, shell=True) *)
| Popen (cmd : string)        (* subprocess.Popen(cmd, shell=True) *)
| Terminate.                  (* proc.terminate() *)

Definition dq : string := String (ascii_of_nat 34) EmptyString.
Definition nl : string := String (ascii_of_nat 10) EmptyString.

(** [not x] on an optional string: [None] and the empty string. *)
Definition py_not (x : option string) : bool :=
  match x with
  | None => true
  | Some EmptyString => true
  | Some _ => false
  end.

(** An optional string inside an f-string. *)
Definition fmt (x : option string) : string :=
  match x with
  | Some s => s
  | None => "None"
  end.

Definition proto (a : Args) : string := if a_udp a then "udp" else "tcp".
Definition listen_flag (a : Args) : string :=
  if a_udp a then EmptyString else "-listen 1".

Definition ffmpeg_listen (a : Args) : string :=
  "ffmpeg " ++ listen_flag a ++ " -i " ++ proto a ++ "://0.0.0.0:" ++ a_port a
  ++ " -f v4l2 " ++ a_device a.

Definition serve_web (a : Args) : string :=
  "uv run camera_feed_server.py --device " ++ a_device a ++ " --port "
  ++ a_web_port a ++ " --width 1280 --height 720".

Definition remote_script : string := "/var/tmp/remote_camera_script.sh".

Definition wrapper : string :=
  "#!/bin/bash" ++ nl ++
  "osascript <<APPLESCRIPT" ++ nl ++
  "tell application \" ++ dq ++ "iTerm\" ++ dq ++ nl ++
  "    create window with default profile command \" ++ dq ++
  "/opt/local/bin/ffmpeg -f avfoundation -pixel_format uyvy422 -framerate 30 -video_size 1280x720 -i '0' -c:v libx264 -preset ultrafast -tune zerolatency -pix_fmt yuv420p -f mpegts \$1\"
  ++ dq ++ nl ++
  "end tell" ++ nl ++
  "APPLESCRIPT".

Definition exit_message : string := "stream mode requires --remote and --local".

(** The actions in order, and the argument of [sys.exit] if it is
    called. *)
Definition main (a : Args) : list action * option string :=
  match a_mode a with
  | Setup =>
      ([Run "sudo modprobe v4l2loopback devices=1 video_nr=2 card_label='Virtual Camera' exclusive_caps=1"],
       None)
  | Listen => ([Run (ffmpeg_listen a)], None)
  | Stream =>
      if py_not (a_remote a) || py_not (a_local a) then ([], Some exit_message)
      else
        let destination :=
          proto a ++ "://" ++ fmt (a_local a) ++ ":" ++ a_port a in
        ([Run ("ssh " ++ fmt (a_remote a) ++ " " ++ dq ++ "cat > " ++ remote_script
               ++ " << 'WRAPPER_EOF'" ++ nl ++ wrapper ++ nl ++ "WRAPPER_EOF" ++ nl
               ++ "chmod +x " ++ remote_script ++ dq);
          Run ("ssh " ++ fmt (a_remote a) ++ " '" ++ remote_script ++ " "
               ++ destination ++ "'")],
         None)
  | Web => ([Run (serve_web a)], None)
  | All => ([Popen (ffmpeg_listen a); Run (serve_web a); Terminate], None)
  end.

(** The commands handed to a shell. *)
Definition commands (acts : list action) : list string :=
  flat_map (fun x => match x with
                     | Run c => [c]
                     | Popen c => [c]
                     | Terminate => []
                     end) acts.

End Launcher.

(** ** Auxiliary definitions for the statements *)

Section Observers.

Context {T : Type} `{Clock T}.
Variable env : Env T.

(** Whether [get_camera] ends up with an opened capture: the one it
    already holds, or the one it is about to construct. *)
Definition will_open (g : Globals) (w : World) : bool :=
  match camera g with
  | Some cam => cap_opened cam
  | None => open_ok env (opens w)
  end.

(** [n] calls of [get_camera] in a row, whatever each one returns. *)
Fixpoint calls (n : nat) (g : Globals) (w : World) : Globals * World :=
  match n with
  | O => (g, w)
  | S n' =>
      let '(_, _, g', w') := get_camera env g w in
      calls n' g' w'
  end.

(** The frame the next [read()] on [cam] returns. *)
Definition next_frame (cam : Capture) (w : World) : option Frame :=
  if cap_opened cam then dev_read env (reads w) else None.

(** The JPEG bytes of a frame under the configuration [g]. *)
Definition encoded (g : Globals) (frame : Frame) : option (list byte) :=
  imencode env (resize env frame (WIDTH g) (HEIGHT g)) (QUALITY g).

End Observers.

Definition set_fps_limit (f : option Z) (g : Globals) : Globals := {|
  camera := camera g;
  DEVICE := DEVICE g;
  QUALITY := QUALITY g;
  WIDTH := WIDTH g;
  HEIGHT := HEIGHT g;
  FPS_LIMIT := f;
  DEBUG := DEBUG g
|}.

(** The head of a segment as the specification spells it, byte by byte:
    [--frame], CR LF, [Content-Type: image/jpeg], CR LF, CR LF. *)
Definition spec_segment_head : list byte :=
  [x2d; x2d; x66; x72; x61; x6d; x65; x0d; x0a;
   x43; x6f; x6e; x74; x65; x6e; x74; x2d; x54; x79; x70; x65; x3a; x20;
   x69; x6d; x61; x67; x65; x2f; x6a; x70; x65; x67; x0d; x0a; x0d; x0a].

(** The tail of a segment: CR LF. *)
Definition spec_segment_tail : list byte := [x0d; x0a].

(** ** Sample environments *)

Module Sample.

Definition frame0 : Frame := {| f_rows := 1; f_cols := 1; f_data := [x00] |}.

Definition jpeg0 : list byte := [xff; xd8; xff; xd9].

(** A device that opens and delivers [good] frames before it fails; an
    encoder that refuses the frames whose number is in [bad]. *)
Definition env_of (opens_ok : bool) (good : nat) (bad : list Z) : Env Q := {|
  open_ok := fun _ => opens_ok;
  dev_read := fun k =>
    if (k <? good)%nat
    then Some frame0
    else None;
  clock := fun k => Qmake (Z.of_nat k) 100;
  resize := fun f w h =>
    {| f_rows := h; f_cols := w; f_data := f_data f |};
  imencode := fun f q =>
    if existsb (Z.eqb q) bad then None else Some jpeg0
|}.

(** Two frames, then the read fails. *)
Definition two_frames : Env Q := env_of true 2 [].

(** The device cannot be opened. *)
Definition busy : Env Q := env_of false 0 [].

(** Quality 7 is refused by the encoder. *)
Definition picky : Env Q := env_of true 3 [7].

Definition capped : Globals := set_fps_limit (Some 10) module_globals.

(** A clock that is read every tenth of a second. *)
Definition patient : Env Q := {|
  open_ok := fun _ => true;
  dev_read := fun _ => Some frame0;
  clock := fun k => Qmake (Z.of_nat k) 10;
  resize := fun f w h => {| f_rows := h; f_cols := w; f_data := f_data f |};
  imencode := fun _ _ => Some jpeg0
|}.

Definition quality7 : Globals := {|
  camera := None;
  DEVICE := DevIndex 0;
  QUALITY := 7;
  WIDTH := 640;
  HEIGHT := 480;
  FPS_LIMIT := None;
  DEBUG := false
|}.

(** [--device /dev/video10 --debug] *)
Definition device_and_debug : list Cli.option_given :=
  [Cli.OptDevice "/dev/video10"; Cli.OptDebug].

Definition session0 : Session Q := {|
  last_frame_time := inject_Z 0;
  frame_count := 0;
  start_time := inject_Z 0;
  last_log_time := inject_Z 0
|}.

Definition open_capture : Capture := {| cap_id := 0; cap_opened := true |}.

Definition stream_without_remote : Launcher.Args := {|
  Launcher.a_mode := Launcher.Stream;
  Launcher.a_remote := None;
  Launcher.a_local := Some "192.168.1.20"%string;
  Launcher.a_port := "5000"%string;
  Launcher.a_udp := false;
  Launcher.a_web_port := "8080"%string;
  Launcher.a_device := "/dev/video2"%string
|}.

End Sample.

(** ** The server: routes and life cycle

    [app.run] is the sequence of requests the process answers, one after
    the other; a request for the feed says for how many turns of the loop
    its client stays.  The interleaving of threads is not part of the
    model. *)

Definition set_debug (b : bool) (g : Globals) : Globals := {|
  camera := camera g;
  DEVICE := DEVICE g;
  QUALITY := QUALITY g;
  WIDTH := WIDTH g;
  HEIGHT := HEIGHT g;
  FPS_LIMIT := FPS_LIMIT g;
  DEBUG := b
|}.

Section Routes.

Context {T : Type} `{Clock T}.
Variable env : Env T.

Inductive request :=
| GetIndex
| GetVideoFeed (turns : nat)
| GetHealth.

Inductive response :=
| Page (device : device_id)               (* HTML_TEMPLATE rendered *)
| Stream (mimetype : string) (run : Run T)
| Json (status : string) (device : device_id).

Inductive server_event :=
| SrvLog (msg : string)
| SrvRelease (cam : Capture).

Definition index (g : Globals) : list server_event * response :=
  ([SrvLog "Index page requested"], Page (DEVICE g)).

Definition video_feed (turns : nat) (g : Globals) (w : World)
  : list server_event * response :=
  ([SrvLog "Video feed requested"],
   Stream "multipart/x-mixed-replace; boundary=frame"
          (generate_frames env turns g w)).

Definition health (g : Globals) : list server_event * response :=
  ([], Json "ok" (DEVICE g)).

Definition handle (rq : request) (g : Globals) (w : World)
  : list server_event * response * Globals * World :=
  match rq with
  | GetIndex => let '(ev, r) := index g in (ev, r, g, w)
  | GetVideoFeed turns =>
      let '(ev, r) := video_feed turns g w in
      match r with
      | Stream _ run => (ev, r, globals run, world run)
      | _ => (ev, r, g, w)
      end
  | GetHealth => let '(ev, r) := health g in (ev, r, g, w)
  end.

Fixpoint serve (rqs : list request) (g : Globals) (w : World)
  : list server_event * list response * Globals * World :=
  match rqs with
  | [] => ([], [], g, w)
  | rq :: rest =>
      let '(ev, r, g1, w1) := handle rq g w in
      let '(evs, rs, g2, w2) := serve rest g1 w1 in
      (ev ++ evs, r :: rs, g2, w2)
  end.

(** The [finally] of the [__main__] block. *)
Definition shutdown (g : Globals) : list server_event :=
  match camera g with
  | Some cam => [SrvLog "Releasing camera"; SrvRelease cam]
  | None => []
  end.

(** [app.run] and what follows it; [interrupted] says whether the run
    ended by [KeyboardInterrupt]. *)
Definition run_server (interrupted : bool) (rqs : list request)
           (g : Globals) (w : World)
  : list server_event * list response * Globals * World :=
  let '(ev, rs, g1, w1) := serve rqs g w in
  (ev ++ (if interrupted then [SrvLog "Shutting down..."] else [])
      ++ shutdown g1,
   rs, g1, w1).

Definition releases (tr : list server_event) : list Capture :=
  flat_map (fun e => match e with SrvRelease c => [c] | _ => [] end) tr.

(** The segments of every feed among the responses. *)
Definition streamed (rs : list response) : list (list byte) :=
  flat_map (fun r => match r with
                     | Stream _ run => yields (trace run)
                     | _ => []
                     end) rs.

Definition asks_feed (rq : request) : bool :=
  match rq with GetVideoFeed _ => true | _ => false end.

(** The states of a server whose device does not open. *)
Definition unopenable (g : Globals) (w : World) : Prop :=
  match camera g with
  | Some cam => cap_opened cam = false
  | None => open_ok env (opens w) = false
  end.

(** *** The device scan of [--list-devices] *)

Inductive scan_event :=
| ScanLogStart
| ScanProbe (i : nat)                     (* cv2.VideoCapture(i) *)
| ScanLogDevice (i : nat)
| ScanRelease (i : nat)                   (* cap.release() *)
| ScanLogPath (path : string).

(** The first loop, over the indices [range]. *)
Fixpoint scan_indices (range : list nat) (found : list nat) (w : World)
  : list scan_event * list nat * World :=
  match range with
  | [] => ([], found, w)
  | i :: rest =>
      let '(cap, w1) := VideoCapture env w in
      if cap_opened cap then
        let '(ev, found', w2) := scan_indices rest (found ++ [i]) w1 in
        (ScanProbe i :: ScanLogDevice i :: ScanRelease i :: ev, found', w2)
      else
        let '(ev, found', w2) := scan_indices rest found w1 in
        (ScanProbe i :: ev, found', w2)
  end.

Definition dev_path (i : nat) : string :=
  ("/dev/video" ++ NilZero.string_of_uint (Nat.to_uint i))%string.

(** The second loop, over the paths; [path_exists] is [os.path.exists]. *)
Definition scan_paths (path_exists : string -> bool) (found : list nat)
  : list scan_event :=
  if path_exists "/dev"%string then
    flat_map (fun i =>
                if path_exists (dev_path i) then
                  if negb (existsb (Nat.eqb i) found)
                  then [ScanLogPath (dev_path i)]
                  else []
                else [])
             (seq 0 20)
  else [].

(** The whole scan; the process then leaves with [sys.exit(0)]. *)
Definition list_devices_scan (path_exists : string -> bool) (w : World)
  : list scan_event * World :=
  let '(ev, found, w1) := scan_indices (seq 0 10) [] w in
  (ScanLogStart :: ev ++ scan_paths path_exists found, w1).

Definition scan_released (tr : list scan_event) : list nat :=
  flat_map (fun e => match e with ScanRelease i => [i] | _ => [] end) tr.

Definition scan_devices (tr : list scan_event) : list nat :=
  flat_map (fun e => match e with ScanLogDevice i => [i] | _ => [] end) tr.

Definition scan_probes (tr : list scan_event) : list nat :=
  flat_map (fun e => match e with ScanProbe i => [i] | _ => [] end) tr.

Definition scan_paths_logged (tr : list scan_event) : list string :=
  flat_map (fun e => match e with ScanLogPath p => [p] | _ => [] end) tr.

End Routes.

Arguments response T : clear implicits.

(** The [boundary] parameter of a content type, as a client reads it:
    what follows [boundary=]. *)
Definition boundary_of (mimetype : string) : option string :=
  match String.index 0 "boundary=" mimetype with
  | Some i => Some (substring (i + 9) (String.length mimetype) mimetype)
  | None => None
  end.

(** ** Command lines: further observations *)

Module CliMore.

Import Cli.

Definition gives_device (o : option_given) : bool :=
  match o with OptDevice _ => true | _ => false end.
Definition gives_debug (o : option_given) : bool :=
  match o with OptDebug => true | _ => false end.
Definition gives_list_devices (o : option_given) : bool :=
  match o with OptListDevices => true | _ => false end.

(** The options of the command line that the launcher's [web] and [all]
    modes hand to the shell, [uv run camera_feed_server.py --device D
    --port P --width 1280 --height 720]; [Shell.fields] and
    [Shell.options_of] find them in the command when [D] and [P] are
    plain words. *)
Definition web_options (a : Launcher.Args) : list option_given :=
  [OptDevice (Launcher.a_device a); OptPort (Launcher.a_web_port a);
   OptWidth "1280"; OptHeight "720"].

End CliMore.

(** ** What OpenCV raises

    [cv2.resize] and [cv2.imencode] raise [cv2.error] on some arguments:
    a size that is not positive, parameters the encoder rejects.
    [generate_frames] has no [try], so the exception leaves the loop and
    ends the generator.  [Faults] says on which arguments each call
    raises; [loop_body_cv2] is the body of the loop with these two ends,
    [loop_cv2] the loop. *)

Record Faults := {
  resize_raises : Frame -> Z -> Z -> bool;
  imencode_raises : Frame -> Z -> bool
}.

Inductive cv2_exn := Cv2Error.

Section Cv2Errors.

Context {T : Type} `{Clock T}.
Variable cv : Faults.
Variable env : Env T.

Definition loop_body_cv2 (g : Globals) (cam : Capture) (s : Session T) (w : World)
  : list (event T) * (cv2_exn + flow) * Session T * World :=
  let '(ev_pace, s1, w1) := pace env g s w in
  let '(r, w2) := cam_read env cam w1 in
  match r with
  | None =>
      (ev_pace ++ [EvRead false; EvLog ERROR MsgReadFailed], inr Break, s1, w2)
  | Some frame =>
      let s2 := {| last_frame_time := last_frame_time s1;
                   frame_count := frame_count s1 + 1;
                   start_time := start_time s1;
                   last_log_time := last_log_time s1 |} in
      let '(ev_stats, s3, w3) := log_stats env g s2 w2 in
      if resize_raises cv frame (WIDTH g) (HEIGHT g) then
        (ev_pace ++ [EvRead true] ++ ev_stats, inl Cv2Error, s3, w3)
      else
        let frame' := resize env frame (WIDTH g) (HEIGHT g) in
        if imencode_raises cv frame' (QUALITY g) then
          (ev_pace ++ [EvRead true] ++ ev_stats, inl Cv2Error, s3, w3)
        else
          match imencode env frame' (QUALITY g) with
          | None =>
              (ev_pace ++ [EvRead true] ++ ev_stats
                       ++ [EvLog ERROR MsgEncodeFailed],
               inr Continue, s3, w3)
          | Some frame_bytes =>
              (ev_pace ++ [EvRead true] ++ ev_stats ++
               (if DEBUG g && (frame_count s3 =? 1)
                then [EvLog DEBUG_
                        (MsgFirstFrameSize (Z.of_nat (List.length frame_bytes)))]
                else []) ++
               [EvYield (segment frame_bytes)],
               inr Yielded, s3, w3)
          end
  end.

(** [fuel] turns of the loop; [inl] is the exception that left it. *)
Fixpoint loop_cv2 (fuel : nat) (g : Globals) (cam : Capture)
         (s : Session T) (w : World)
  : list (event T) * (cv2_exn + status) * Session T * World :=
  match fuel with
  | O => ([], inr Running, s, w)
  | S fuel' =>
      let '(ev, r, s', w') := loop_body_cv2 g cam s w in
      match r with
      | inl e => (ev, inl e, s', w')
      | inr Break => (ev, inr Stopped, s', w')
      | inr Continue | inr Yielded =>
          let '(evs, st, s'', w'') := loop_cv2 fuel' g cam s' w' in
          (ev ++ evs, st, s'', w'')
      end
  end.

(** The encoding of [frame] fails: [cv2.imencode] raises or returns
    [ret = False]. *)
Definition encode_fails (g : Globals) (frame : Frame) : bool :=
  let frame' := resize env frame (WIDTH g) (HEIGHT g) in
  imencode_raises cv frame' (QUALITY g) ||
  match imencode env frame' (QUALITY g) with
  | None => true
  | Some _ => false
  end.

(** The turn skips its frame: it ends by [continue] and yields nothing. *)
Definition skips_frame (g : Globals) (cam : Capture) (s : Session T) (w : World)
  : Prop :=
  exists ev s' w',
    loop_body_cv2 g cam s w = (ev, inr Continue, s', w') /\ yields ev = [].

End Cv2Errors.

Module SampleFaults.

(** OpenCV as it answers a size that is not positive and a quality that
    does not fit an [int]. *)
Definition strict : Faults := {|
  resize_raises := fun _ w h => (w <=? 0) || (h <=? 0);
  imencode_raises := fun _ q => (q <? -2147483648) || (2147483647 <? q)
|}.

(** [--quality 2147483648] *)
Definition quality_too_large : Globals := {|
  camera := None;
  DEVICE := DevIndex 0;
  QUALITY := 2147483648;
  WIDTH := 640;
  HEIGHT := 480;
  FPS_LIMIT := None;
  DEBUG := false
|}.

End SampleFaults.

(** ** The command line, for every conversion

    The parser of [Cli] with [int] as a parameter: [int_of text] is what
    [int(text)] returns, [None] when it raises [ValueError]. *)

Module Startup.

Import Cli.

Section Over.

Variable int_of : string -> option Z.

Definition store (ns : Namespace) (o : option_given) : option Namespace :=
  let with_int (v : string) (k : Z -> Namespace) := option_map k (int_of v) in
  match o with
  | OptDevice v =>
      Some {| device := v; list_devices := list_devices ns; port := port ns;
              host := host ns; quality := quality ns; width := width ns;
              height := height ns; fps := fps ns; debug := debug ns |}
  | OptListDevices =>
      Some {| device := device ns; list_devices := true; port := port ns;
              host := host ns; quality := quality ns; width := width ns;
              height := height ns; fps := fps ns; debug := debug ns |}
  | OptPort v =>
      with_int v (fun n =>
        {| device := device ns; list_devices := list_devices ns; port := n;
           host := host ns; quality := quality ns; width := width ns;
           height := height ns; fps := fps ns; debug := debug ns |})
  | OptHost v =>
      Some {| device := device ns; list_devices := list_devices ns; port := port ns;
              host := v; quality := quality ns; width := width ns;
              height := height ns; fps := fps ns; debug := debug ns |}
  | OptQuality v =>
      with_int v (fun n =>
        {| device := device ns; list_devices := list_devices ns; port := port ns;
           host := host ns; quality := n; width := width ns;
           height := height ns; fps := fps ns; debug := debug ns |})
  | OptWidth v =>
      with_int v (fun n =>
        {| device := device ns; list_devices := list_devices ns; port := port ns;
           host := host ns; quality := quality ns; width := n;
           height := height ns; fps := fps ns; debug := debug ns |})
  | OptHeight v =>
      with_int v (fun n =>
        {| device := device ns; list_devices := list_devices ns; port := port ns;
           host := host ns; quality := quality ns; width := width ns;
           height := n; fps := fps ns; debug := debug ns |})
  | OptFps v =>
      with_int v (fun n =>
        {| device := device ns; list_devices := list_devices ns; port := port ns;
           host := host ns; quality := quality ns; width := width ns;
           height := height ns; fps := Some n; debug := debug ns |})
  | OptDebug =>
      Some {| device := device ns; list_devices := list_devices ns; port := port ns;
              host := host ns; quality := quality ns; width := width ns;
              height := height ns; fps := fps ns; debug := true |}
  end.

Fixpoint parse_from (ns : Namespace) (argv : list option_given)
  : option Namespace :=
  match argv with
  | [] => Some ns
  | o :: rest =>
      match store ns o with
      | Some ns' => parse_from ns' rest
      | None => None
      end
  end.

Definition parse_args (argv : list option_given) : option Namespace :=
  parse_from defaults argv.

Definition main (argv : list option_given) : startup :=
  match parse_args argv with
  | None => UsageError
  | Some args =>
      let DEBUG' := if debug args then true else DEBUG module_globals in
      if list_devices args then ListedDevices
      else
        let DEVICE' :=
          match int_of (device args) with
          | Some n => DevIndex n
          | None => DevPath (device args)
          end in
        Serving {| camera := camera module_globals;
                   DEVICE := DEVICE';
                   QUALITY := quality args;
                   WIDTH := width args;
                   HEIGHT := height args;
                   FPS_LIMIT := fps args;
                   DEBUG := DEBUG' |}
                (host args) (port args)
  end.

(** An option whose value [int] refuses. *)
Definition refused (o : option_given) : bool :=
  match o with
  | OptPort v | OptQuality v | OptWidth v | OptHeight v | OptFps v =>
      match int_of v with Some _ => false | None => true end
  | OptDevice _ | OptHost _ | OptListDevices | OptDebug => false
  end.

End Over.

End Startup.

(** ** From the launcher's command to the server's options

    The launcher hands its command to [/bin/sh].  For words made of
    letters, digits and [/ . _ :], with [-] after the first character,
    the shell does no more than cut the command at its blanks, and
    [argparse] takes a word after the name of an option as its value. *)

Module Shell.

Definition plain_char (c : ascii) : bool :=
  let n := nat_of_ascii c in
  ((48 <=? n) && (n <=? 58)          (* digits and the colon *)
   || (65 <=? n) && (n <=? 90)       (* A-Z *)
   || (97 <=? n) && (n <=? 122)      (* a-z *)
   || (n =? 95)                      (* _ *)
   || (45 <=? n) && (n <=? 47))%nat. (* - . / *)

Fixpoint all_plain (s : string) : bool :=
  match s with
  | EmptyString => true
  | String c r => plain_char c && all_plain r
  end.

(** A word that the shell and [argparse] take as one value. *)
Definition plain_word (s : string) : bool :=
  match s with
  | EmptyString => false
  | String c r => negb (nat_of_ascii c =? 45)%nat && all_plain s
  end.

(** The fields of a command of plain words: [cur] is the word being
    read. *)
Fixpoint fields_from (cur : string) (s : string) : list string :=
  match s with
  | EmptyString =>
      match cur with EmptyString => [] | _ => [cur] end
  | String c r =>
      if (nat_of_ascii c =? 32)%nat then
        match cur with
        | EmptyString => fields_from EmptyString r
        | _ => cur :: fields_from EmptyString r
        end
      else fields_from (cur ++ String c EmptyString) r
  end.

Definition fields (command : string) : list string :=
  fields_from EmptyString command.

(** The options in the words that follow the name of the script. *)
Fixpoint options_of (words : list string) : option (list Cli.option_given) :=
  let valued (k : string -> Cli.option_given) (rest : list string) :=
    match rest with
    | v :: rest' =>
        if plain_word v
        then option_map (cons (k v)) (options_of rest')
        else None
    | [] => None
    end in
  match words with
  | [] => Some []
  | name :: rest =>
      if (name =? "--device")%string then valued Cli.OptDevice rest
      else if (name =? "--port")%string then valued Cli.OptPort rest
      else if (name =? "--host")%string then valued Cli.OptHost rest
      else if (name =? "--quality")%string then valued Cli.OptQuality rest
      else if (name =? "--width")%string then valued Cli.OptWidth rest
      else if (name =? "--height")%string then valued Cli.OptHeight rest
      else if (name =? "--fps")%string then valued Cli.OptFps rest
      else if (name =? "--debug")%string
      then option_map (cons Cli.OptDebug) (options_of rest)
      else if (name =? "--list-devices")%string
      then option_map (cons Cli.OptListDevices) (options_of rest)
      else None
  end.

End Shell.

(** ** Proof steps *)

Create Rewrite HintDb trace.

(** Splits a trace observation along the appends of the trace. *)
Ltac split_trace := autorewrite with trace; cbn.

(** Reduces the [let]s and [match]es of a definition once their subjects
    are known, leaving the traces as they are written. *)
Ltac known := cbv beta iota zeta; unfold time_time; cbv beta iota zeta.

(** * Properties *)

(** ** Traces *)

Section TraceLemmas.

Context {T : Type} `{Clock T}.

Lemma yields_app (a b : list (event T)) :
  yields (a ++ b) = yields a ++ yields b.
Proof. apply flat_map_app. Qed.

Lemma sleeps_app (a b : list (event T)) :
  sleeps (a ++ b) = sleeps a ++ sleeps b.
Proof. apply flat_map_app. Qed.

Lemma good_reads_app (a b : list (event T)) :
  good_reads (a ++ b) = (good_reads a + good_reads b)%nat.
Proof. unfold good_reads. now rewrite filter_app, length_app. Qed.

Lemma all_reads_app (a b : list (event T)) :
  all_reads (a ++ b) = (all_reads a + all_reads b)%nat.
Proof. unfold all_reads. now rewrite filter_app, length_app. Qed.

Lemma encode_failures_app (a b : list (event T)) :
  encode_failures (a ++ b) = (encode_failures a + encode_failures b)%nat.
Proof. unfold encode_failures. now rewrite filter_app, length_app. Qed.

End TraceLemmas.

#[local] Hint Rewrite @yields_app @sleeps_app @good_reads_app @all_reads_app
  @encode_failures_app : trace.

(** ** One turn of the loop *)

Section LoopBody.

Context {T : Type} `{Clock T}.
Variable env : Env T.

(** The rate limiter emits nothing but sleeps and touches neither the
    device nor the frame counter. *)
Lemma pace_silent g s w :
  let '(ev, s', w') := pace env g s w in
  yields ev = [] /\ good_reads ev = 0%nat /\ all_reads ev = 0%nat /\
  encode_failures ev = 0%nat /\
  reads w' = reads w /\ opens w' = opens w /\
  frame_count s' = frame_count s.
Proof.
  unfold pace. destruct (fps_cap (FPS_LIMIT g)); cbn.
  - destruct (t_lt _ _); cbn; repeat split; reflexivity.
  - repeat split; reflexivity.
Qed.

Lemma log_stats_silent g s w :
  let '(ev, s', w') := log_stats env g s w in
  yields ev = [] /\ sleeps ev = [] /\ good_reads ev = 0%nat /\
  all_reads ev = 0%nat /\ encode_failures ev = 0%nat /\
  reads w' = reads w /\ opens w' = opens w /\
  frame_count s' = frame_count s /\
  last_frame_time s' = last_frame_time s.
Proof.
  unfold log_stats. destruct (DEBUG g); cbn.
  - destruct (t_ge5 _); cbn; repeat split; reflexivity.
  - repeat split; reflexivity.
Qed.

Lemma next_frame_pace g cam s w :
  let '(_, _, w') := pace env g s w in
  next_frame env cam w' = next_frame env cam w.
Proof.
  pose proof (pace_silent g s w) as P.
  destruct (pace env g s w) as [[ev s'] w'].
  destruct P as (_ & _ & _ & _ & R & _).
  unfold next_frame. now rewrite R.
Qed.

(** What a turn does, by what the device and the encoder answer. *)
Lemma loop_body_cases g cam s w :
  let '(ev, fl, s', w') := loop_body env g cam s w in
  opens w' = opens w /\ all_reads ev = 1%nat /\
  match next_frame env cam w with
  | None =>
      fl = Break /\ yields ev = [] /\ good_reads ev = 0%nat /\
      encode_failures ev = 0%nat /\ frame_count s' = frame_count s /\
      reads w' = (if cap_opened cam then S (reads w) else reads w)
  | Some frame =>
      reads w' = S (reads w) /\ frame_count s' = frame_count s + 1 /\
      good_reads ev = 1%nat /\
      match encoded env g frame with
      | None => fl = Continue /\ yields ev = [] /\ encode_failures ev = 1%nat
      | Some jpeg =>
          fl = Yielded /\ yields ev = [segment jpeg] /\
          encode_failures ev = 0%nat
      end
  end.
Proof.
  unfold loop_body.
  pose proof (pace_silent g s w) as P.
  pose proof (next_frame_pace g cam s w) as N.
  destruct (pace env g s w) as [[ev1 s1] w1].
  destruct P as (Py & Pg & Pa & Pe & Pr & Po & Pc).
  rewrite <- N. unfold next_frame, cam_read.
  destruct (cap_opened cam).
  - destruct (dev_read env (reads w1)) as [frame|].
    + match goal with
      | |- context [log_stats env g ?s2 ?w2] =>
          pose proof (log_stats_silent g s2 w2) as L;
          destruct (log_stats env g s2 w2) as [[ev2 s3] w3]
      end.
      cbn in L. destruct L as (Ly & _ & Lg & La & Le & Lr & Lo & Lc & _).
      unfold encoded.
      destruct (imencode env _ _) as [jpeg|].
      * destruct (DEBUG g && (frame_count s3 =? 1));
          split_trace; rewrite ?Py, ?Pg, ?Pa, ?Pe, ?Ly, ?Lg, ?La, ?Le;
          repeat split; cbn; congruence || lia.
      * split_trace; rewrite ?Py, ?Pg, ?Pa, ?Pe, ?Ly, ?Lg, ?La, ?Le;
          repeat split; cbn; congruence || lia.
    + split_trace; rewrite ?Py, ?Pg, ?Pa, ?Pe; repeat split; cbn; congruence || lia.
  - split_trace; rewrite ?Py, ?Pg, ?Pa, ?Pe; repeat split; cbn; congruence || lia.
Qed.

End LoopBody.

(** ** Runs of the loop *)

Section Loop.

Context {T : Type} `{Clock T}.
Variable env : Env T.

Lemma loop_S fuel g cam s w :
  loop env (S fuel) g cam s w =
  let '(ev, fl, s', w') := loop_body env g cam s w in
  match fl with
  | Break => (ev, Stopped, s', w')
  | Continue | Yielded =>
      let '(evs, st, s'', w'') := loop env fuel g cam s' w' in
      (ev ++ evs, st, s'', w'')
  end.
Proof. reflexivity. Qed.

(** The counter follows the successful reads, and every successful read
    ends as a segment or as an encoder failure. *)
Lemma loop_counts fuel : forall g cam s w,
  let '(ev, _, s', w') := loop env fuel g cam s w in
  frame_count s' = frame_count s + Z.of_nat (good_reads ev) /\
  (List.length (yields ev) + encode_failures ev = good_reads ev)%nat /\
  opens w' = opens w.
Proof.
  induction fuel as [|fuel IH]; intros g cam s w.
  - cbn. repeat split; lia.
  - rewrite loop_S.
    pose proof (loop_body_cases env g cam s w) as B.
    destruct (loop_body env g cam s w) as [[[ev fl] s1] w1].
    destruct B as (Bo & _ & B).
    destruct (next_frame env cam w) as [frame|].
    + destruct B as (_ & Bc & Bg & B).
      specialize (IH g cam s1 w1).
      destruct (encoded env g frame); destruct B as (-> & By & Be);
        destruct (loop env fuel g cam s1 w1) as [[[evs st] s2] w2];
        destruct IH as (Ic & Il & Io);
        split_trace; rewrite ?length_app, By, Be, Bg, Ic, Bc;
        repeat split; cbn; lia.
    + destruct B as (-> & By & Bg & Be & Bc & _).
      rewrite By, Be, Bg, Bc. repeat split; cbn; lia.
Qed.

(** Every segment frames the encoder's output for a frame the device
    delivered. *)
Lemma loop_yields fuel : forall g cam s w,
  let '(ev, _, _, _) := loop env fuel g cam s w in
  Forall (fun seg => exists k frame jpeg,
              dev_read env k = Some frame /\
              encoded env g frame = Some jpeg /\
              seg = segment jpeg)
         (yields ev).
Proof.
  induction fuel as [|fuel IH]; intros g cam s w.
  - cbn. constructor.
  - rewrite loop_S.
    pose proof (loop_body_cases env g cam s w) as B.
    destruct (loop_body env g cam s w) as [[[ev fl] s1] w1].
    destruct B as (_ & _ & B).
    destruct (next_frame env cam w) as [frame|] eqn:N.
    + destruct B as (_ & _ & _ & B).
      specialize (IH g cam s1 w1).
      destruct (encoded env g frame) as [jpeg|] eqn:E;
        destruct B as (-> & By & _);
        destruct (loop env fuel g cam s1 w1) as [[[evs st] s2] w2];
        rewrite yields_app, By; cbn; [|exact IH].
      constructor; [|exact IH].
      exists (reads w), frame, jpeg. repeat split; try assumption.
      unfold next_frame in N. destruct (cap_opened cam); congruence.
    + destruct B as (-> & By & _). rewrite By. constructor.
Qed.

(** A device that delivers [n] encodable frames and then fails: the loop
    yields their [n] segments, reads [n + 1] times and stops. *)
Lemma loop_until_failure (frames : nat -> Frame) (jpegs : nat -> list byte)
      g cam (Hcam : cap_opened cam = true) n :
  forall fuel s w,
    (forall k, (reads w <= k < reads w + n)%nat ->
               dev_read env k = Some (frames k) /\
               encoded env g (frames k) = Some (jpegs k)) ->
    dev_read env (reads w + n) = None ->
    (n < fuel)%nat ->
    let '(ev, st, _, w') := loop env fuel g cam s w in
    st = Stopped /\
    yields ev = map (fun k => segment (jpegs k)) (seq (reads w) n) /\
    all_reads ev = S n /\
    reads w' = (reads w + S n)%nat.
Proof.
  induction n as [|n IH]; intros fuel s w Hgood Hbad Hfuel;
    (destruct fuel as [|fuel]; [lia|]); rewrite loop_S;
    pose proof (loop_body_cases env g cam s w) as B;
    destruct (loop_body env g cam s w) as [[[ev fl] s1] w1];
    destruct B as (_ & Ba & B); unfold next_frame in B; rewrite Hcam in B.
  - rewrite Nat.add_0_r in Hbad. rewrite Hbad in B.
    destruct B as (-> & By & _ & _ & _ & Br). rewrite By, Ba, Br.
    repeat split; try reflexivity. lia.
  - destruct (Hgood (reads w)) as [Hr He]; [lia|].
    rewrite Hr in B. destruct B as (Br & _ & _ & B).
    rewrite He in B. destruct B as (-> & By & _).
    specialize (IH fuel s1 w1).
    destruct (loop env fuel g cam s1 w1) as [[[evs st] s2] w2].
    rewrite Br in IH.
    destruct IH as (-> & Iy & Ia & Ir).
    + intros k Hk. apply Hgood. lia.
    + rewrite <- Hbad. f_equal. lia.
    + lia.
    + split_trace. rewrite By, Iy, Ba, Ia, Ir. repeat split; lia.
Qed.

End Loop.

(** ** get_camera *)

Section Camera.

Context {T : Type} `{Clock T}.
Variable env : Env T.

Lemma same_config_refl g : same_config g g.
Proof. repeat split. Qed.

Lemma same_config_trans g1 g2 g3 :
  same_config g1 g2 -> same_config g2 g3 -> same_config g1 g3.
Proof. unfold same_config. intuition congruence. Qed.

Lemma encoded_same_config g g' frame :
  same_config g g' -> encoded env g' frame = encoded env g frame.
Proof.
  intros (_ & Q & W & Hh & _). unfold encoded. now rewrite Q, W, Hh.
Qed.

(** What a call does, by whether a capture is held and whether the
    device opens. *)
Lemma get_camera_cases g w :
  let '(ev, r, g1, w1) := get_camera env g w in
  same_config g g1 /\
  yields ev = [] /\ sleeps ev = [] /\ good_reads ev = 0%nat /\
  all_reads ev = 0%nat /\ encode_failures ev = 0%nat /\
  reads w1 = reads w /\
  opens w1 = match camera g with
             | Some _ => opens w
             | None => S (opens w)
             end /\
  match r with
  | inl e =>
      e = RuntimeError (DEVICE g) /\ will_open env g w = false /\
      camera g1 = Some {| cap_id := opens w; cap_opened := false |}
  | inr cam => camera g1 = Some cam /\ cap_opened cam = will_open env g w
  end.
Proof.
  unfold get_camera, will_open.
  destruct (camera g) as [cam|] eqn:C; cbn.
  - rewrite C. repeat split.
  - destruct (open_ok env (opens w)) eqn:O; cbn.
    + destruct (fps_cap (FPS_LIMIT g)); cbn; repeat split; congruence.
    + repeat split.
Qed.

(** Once a capture is held, further calls change nothing. *)
Lemma calls_held n : forall g w cam,
  camera g = Some cam -> calls env n g w = (g, w).
Proof.
  induction n as [|n IH]; intros g w cam C; cbn; [reflexivity|].
  unfold get_camera. rewrite C. now apply IH with cam.
Qed.

(** [get_camera] assigns no global but [camera]. *)
Lemma calls_config n : forall g w, same_config g (fst (calls env n g w)).
Proof.
  induction n as [|n IH]; intros g w; cbn [calls].
  - apply same_config_refl.
  - pose proof (get_camera_cases g w) as G.
    destruct (get_camera env g w) as [[[ev r] g1] w1].
    destruct G as (Gc & _).
    eapply same_config_trans; [exact Gc|apply IH].
Qed.

End Camera.

(** ** The claims on the server *)

Section Claims.

Context {T : Type} `{Clock T}.
Variable env : Env T.

(** C1.  When the device cannot be opened, [get_camera] raises
    [RuntimeError], but the capture it constructed stays in the global
    [camera]: the next call returns that unopened capture without
    raising, and a generator started afterwards reads from it, gets a
    failure and ends silently with no segment. *)
Theorem open_failure_leaves_dead_capture g w :
  camera g = None ->
  open_ok env (opens w) = false ->
  let '(_, r, g1, w1) := get_camera env g w in
  r = inl (RuntimeError (DEVICE g)) /\
  exists cam,
    camera g1 = Some cam /\ cap_opened cam = false /\
    get_camera env g1 w1 = ([], inr cam, g1, w1) /\
    forall fuel,
      outcome (generate_frames env (S fuel) g1 w1) = Stopped /\
      yields (trace (generate_frames env (S fuel) g1 w1)) = [].
Proof.
  intros C O. unfold get_camera at 1. rewrite C. cbn. rewrite O. cbn.
  split; [reflexivity|].
  exists {| cap_id := opens w; cap_opened := false |}.
  do 3 (split; [reflexivity|]).
  intros fuel. unfold generate_frames. cbn [get_camera set_camera camera].
  match goal with
  | |- context [loop_body env ?g1 ?cam ?s0 ?w2] =>
      pose proof (loop_body_cases env g1 cam s0 w2) as B;
      destruct (loop_body env g1 cam s0 w2) as [[[ev fl] s1] w1]
  end.
  cbn in B. destruct B as (_ & _ & -> & By & _).
  split; [reflexivity|]. unfold yields in *. cbn. exact By.
Qed.

(** C2.  A turn of the loop whose frame is read and encoded yields one
    segment, which is the bytes [--frame CRLF Content-Type: image/jpeg
    CRLF CRLF], the JPEG bytes, and [CRLF]; and every segment a
    generator yields has this form, around the encoder's output for a
    frame the device delivered. *)
Theorem segments_are_multipart g :
  (forall cam s w frame jpeg,
      next_frame env cam w = Some frame ->
      encoded env g frame = Some jpeg ->
      let '(ev, _, _, _) := loop_body env g cam s w in
      yields ev = [spec_segment_head ++ jpeg ++ spec_segment_tail]) /\
  (forall fuel w,
      Forall (fun seg => exists k frame jpeg,
                  dev_read env k = Some frame /\
                  encoded env g frame = Some jpeg /\
                  seg = spec_segment_head ++ jpeg ++ spec_segment_tail)
             (yields (trace (generate_frames env fuel g w)))).
Proof.
  split.
  - intros cam s w frame jpeg N E.
    pose proof (loop_body_cases env g cam s w) as B.
    destruct (loop_body env g cam s w) as [[[ev fl] s1] w1].
    rewrite N, E in B. now destruct B as (_ & _ & _ & _ & _ & _ & By & _).
  - intros fuel w. unfold generate_frames.
    pose proof (get_camera_cases env g w) as G.
    destruct (get_camera env g w) as [[[ev0 r] g1] w1].
    destruct G as (Gc & Gy & _).
    destruct r as [e|cam]; known.
    + cbn [trace]. rewrite Gy. constructor.
    + match goal with
      | |- context [loop env fuel g1 cam ?s0 ?w2] =>
          pose proof (loop_yields env fuel g1 cam s0 w2) as L;
          destruct (loop env fuel g1 cam s0 w2) as [[[evs st] s2] w3]
      end.
      known. cbn [trace]. rewrite !yields_app, Gy. cbn.
      eapply Forall_impl; [|exact L].
      intros seg (k & frame & jpeg & R & E & ->).
      exists k, frame, jpeg. repeat split; try assumption.
      now rewrite <- (encoded_same_config env g g1 frame Gc).
Qed.

(** C3.  A turn of the loop whose read fails leaves the loop at once:
    nothing is yielded, nothing is raised, and no second read is made.
    With an opened capture, if the device delivers [n] frames that
    encode and then fails a read, a generator pulled for more than [n]
    turns yields exactly the [n] segments of those frames, reads
    [n + 1] times in all, and has ended. *)
Theorem read_failure_ends_stream g :
  (forall cam s w fuel,
      next_frame env cam w = None ->
      let '(ev, st, _, _) := loop env (S fuel) g cam s w in
      st = Stopped /\ yields ev = [] /\ all_reads ev = 1%nat) /\
  (forall (frames : nat -> Frame) (jpegs : nat -> list byte) w n,
      will_open env g w = true ->
      (forall k, (reads w <= k < reads w + n)%nat ->
                 dev_read env k = Some (frames k) /\
                 encoded env g (frames k) = Some (jpegs k)) ->
      dev_read env (reads w + n) = None ->
      forall fuel, (n < fuel)%nat ->
        let r := generate_frames env fuel g w in
        outcome r = Stopped /\
        yields (trace r) = map (fun k => segment (jpegs k)) (seq (reads w) n) /\
        List.length (yields (trace r)) = n /\
        all_reads (trace r) = S n /\
        reads (world r) = (reads w + S n)%nat).
Proof.
  split.
  { intros cam s w fuel N. rewrite loop_S.
    pose proof (loop_body_cases env g cam s w) as B.
    destruct (loop_body env g cam s w) as [[[ev fl] s1] w1].
    rewrite N in B. destruct B as (_ & Ba & -> & By & _).
    repeat split; assumption. }
  intros frames jpegs w n O Hgood Hbad fuel Hfuel.
  cbv zeta. unfold generate_frames.
  pose proof (get_camera_cases env g w) as G.
  destruct (get_camera env g w) as [[[ev0 r] g1] w1].
  destruct G as (Gc & Gy & _ & _ & Ga & _ & Gr & _ & G).
  destruct r as [e|cam]; known.
  - destruct G as (_ & C & _). congruence.
  - destruct G as (_ & Go). rewrite O in Go. known.
    match goal with
    | |- context [loop env fuel g1 cam ?s0 ?w2] =>
        pose proof (loop_until_failure env frames jpegs g1 cam Go n fuel s0 w2) as L;
        destruct (loop env fuel g1 cam s0 w2) as [[[evs st] s2] w3]
    end.
    cbn [reads] in L. rewrite Gr in L.
    destruct L as (-> & Ly & La & Lr); try assumption.
    + intros k Hk. destruct (Hgood k Hk) as [R E]. split; [exact R|].
      now rewrite (encoded_same_config env g g1 _ Gc).
    + known. cbn [trace outcome world].
      rewrite !yields_app, !all_reads_app, Gy, Ga, Ly, La, Lr. cbn.
      rewrite length_map, length_seq. repeat split.
Qed.

(** C4.  After a call of [get_camera] that returned a capture, the next
    call returns the same capture, does nothing (no event, the same
    globals, the same world: no capture is constructed), and so does any
    number of further calls.  From a state that holds no capture, any
    number of calls constructs at most one. *)
Theorem get_camera_idempotent g w ev cam g1 w1 :
  get_camera env g w = (ev, inr cam, g1, w1) ->
  get_camera env g1 w1 = ([], inr cam, g1, w1) /\
  (forall n, calls env n g1 w1 = (g1, w1)) /\
  (opens w1 <= S (opens w))%nat /\
  (forall n, (opens (snd (calls env n g w)) <= S (opens w))%nat).
Proof.
  intros E.
  pose proof (get_camera_cases env g w) as G. rewrite E in G.
  destruct G as (_ & _ & _ & _ & _ & _ & _ & Go & C & _).
  assert (Hle : (opens w1 <= S (opens w))%nat)
    by (destruct (camera g); lia).
  split; [|split; [|split]].
  - unfold get_camera. now rewrite C.
  - intros n. now apply calls_held with cam.
  - exact Hle.
  - intros [|n]; cbn [calls]; [cbn; lia|].
    rewrite E. now rewrite (calls_held env n g1 w1 cam C).
Qed.

(** A frame that is read and that the encoder refuses by its flag ends
    its turn by [continue]: the turn yields nothing, and the loop goes on
    with its next turn, which reads the device's next frame. *)
Lemma refused_frame_continues g cam s w frame :
  next_frame env cam w = Some frame ->
  encoded env g frame = None ->
  exists ev s' w',
    loop_body env g cam s w = (ev, Continue, s', w') /\
    yields ev = [] /\
    encode_failures ev = 1%nat /\
    reads w' = S (reads w) /\
    next_frame env cam w' = dev_read env (S (reads w)) /\
    forall fuel,
      loop env (S fuel) g cam s w =
      let '(evs, st, s'', w'') := loop env fuel g cam s' w' in
      (ev ++ evs, st, s'', w'').
Proof.
  intros N E.
  pose proof (loop_body_cases env g cam s w) as B.
  pose proof (loop_S env) as LS.
  destruct (loop_body env g cam s w) as [[[ev fl] s1] w1] eqn:L.
  rewrite N, E in B. destruct B as (_ & _ & Br & _ & _ & -> & By & Be).
  exists ev, s1, w1. repeat split; try assumption.
  - unfold next_frame in *. destruct (cap_opened cam); [|discriminate].
    now rewrite Br.
  - intros fuel. rewrite LS, L. reflexivity.
Qed.

(** The segments, the end and the reads of a loop depend on the
    configuration only through what the encoder answers: neither the
    session's time stamps nor the clock matter. *)
Lemma loop_body_config_only g g' cam s s' w w' :
  reads w = reads w' ->
  (forall frame, encoded env g' frame = encoded env g frame) ->
  let '(ev, fl, _, w1) := loop_body env g cam s w in
  let '(ev', fl', _, w1') := loop_body env g' cam s' w' in
  fl = fl' /\ yields ev = yields ev' /\ all_reads ev = all_reads ev' /\
  reads w1 = reads w1'.
Proof.
  intros R E.
  pose proof (loop_body_cases env g cam s w) as B.
  pose proof (loop_body_cases env g' cam s' w') as B'.
  destruct (loop_body env g cam s w) as [[[ev fl] s1] w1].
  destruct (loop_body env g' cam s' w') as [[[ev' fl'] s1'] w1'].
  destruct B as (_ & Ba & B). destruct B' as (_ & Ba' & B').
  assert (N : next_frame env cam w' = next_frame env cam w)
    by (unfold next_frame; now rewrite R).
  rewrite N in B'.
  destruct (next_frame env cam w) as [frame|].
  - destruct B as (Br & _ & _ & B). destruct B' as (Br' & _ & _ & B').
    rewrite E in B'.
    destruct (encoded env g frame);
      destruct B as (-> & -> & _); destruct B' as (-> & -> & _);
      repeat split; congruence.
  - destruct B as (-> & -> & _ & _ & _ & Br).
    destruct B' as (-> & -> & _ & _ & _ & Br').
    repeat split; try congruence. now rewrite Br, Br', R.
Qed.

Lemma loop_config_only fuel : forall g g' cam s s' w w',
  reads w = reads w' ->
  (forall frame, encoded env g' frame = encoded env g frame) ->
  let '(ev, st, _, _) := loop env fuel g cam s w in
  let '(ev', st', _, _) := loop env fuel g' cam s' w' in
  st = st' /\ yields ev = yields ev' /\ all_reads ev = all_reads ev'.
Proof.
  induction fuel as [|fuel IH]; intros g g' cam s s' w w' R E.
  - cbn. repeat split.
  - rewrite !loop_S.
    pose proof (loop_body_config_only g g' cam s s' w w' R E) as B.
    destruct (loop_body env g cam s w) as [[[ev fl] s1] w1].
    destruct (loop_body env g' cam s' w') as [[[ev' fl'] s1'] w1'].
    destruct B as (<- & By & Ba & Br).
    specialize (IH g g' cam s1 s1' w1 w1' Br E).
    destruct (loop env fuel g cam s1 w1) as [[[evs st] s2] w2].
    destruct (loop env fuel g' cam s1' w1') as [[[evs' st'] s2'] w2'].
    destruct IH as (-> & Iy & Ia).
    destruct fl; rewrite ?yields_app, ?all_reads_app; repeat split; congruence.
Qed.

Lemma loop_sleeps_uncapped fuel : forall g cam s w,
  fps_cap (FPS_LIMIT g) = None ->
  let '(ev, _, _, _) := loop env fuel g cam s w in sleeps ev = [].
Proof.
  induction fuel as [|fuel IH]; intros g cam s w F.
  - reflexivity.
  - rewrite loop_S. specialize (IH g cam).
    unfold loop_body, pace. rewrite F. unfold cam_read.
    destruct (cap_opened cam); [destruct (dev_read env (reads w))|]; try reflexivity.
    match goal with
    | |- context [log_stats env g ?s2 ?w2] =>
        pose proof (log_stats_silent env g s2 w2) as L;
        destruct (log_stats env g s2 w2) as [[ev2 s3] w3]
    end.
    destruct L as (_ & Ls & _).
    specialize (IH s3 w3 F).
    destruct (imencode env _ _);
      destruct (loop env fuel g cam s3 w3) as [[[evs st] s4] w4];
      rewrite !sleeps_app, Ls, IH;
      [destruct (DEBUG g && (frame_count s3 =? 1))|]; reflexivity.
Qed.

(** A generator whose configuration has no cap never sleeps. *)
Lemma uncapped_never_sleeps g fuel w :
  fps_cap (FPS_LIMIT g) = None ->
  sleeps (trace (generate_frames env fuel g w)) = [].
Proof.
  intros F. unfold generate_frames.
  pose proof (get_camera_cases env g w) as G.
  destruct (get_camera env g w) as [[[ev0 r] g1] w1].
  destruct G as (Gc & _ & Gs & _).
  destruct r as [e|cam]; known; cbn [trace]; [exact Gs|].
  match goal with
  | |- context [loop env fuel g1 cam ?s0 ?w2] =>
      pose proof (loop_sleeps_uncapped fuel g1 cam s0 w2) as L;
      destruct (loop env fuel g1 cam s0 w2) as [[[evs st] s2] w3]
  end.
  cbn [trace]. rewrite !sleeps_app, Gs, L; [reflexivity|].
  destruct Gc as (_ & _ & _ & _ & -> & _). exact F.
Qed.

(** A generator assigns no global but [camera]. *)
Lemma generate_frames_config g fuel w :
  same_config g (globals (generate_frames env fuel g w)).
Proof.
  unfold generate_frames.
  pose proof (get_camera_cases env g w) as G.
  destruct (get_camera env g w) as [[[ev0 r] g1] w1].
  destruct G as (Gc & _).
  destruct r as [e|cam]; known; cbn [globals]; [exact Gc|].
  now destruct (loop env fuel g1 cam _ _) as [[[evs st] s2] w3].
Qed.



End Claims.

(** ** The claims on the command line *)

Section CommandLine.

Import Cli.

(** An option that is not given keeps the value the namespace had. *)
Lemma parse_from_keeps argv : forall ns ns',
  parse_from ns argv = Some ns' ->
  (supplied gives_width argv = false -> width ns' = width ns) /\
  (supplied gives_height argv = false -> height ns' = height ns) /\
  (supplied gives_quality argv = false -> quality ns' = quality ns) /\
  (supplied gives_fps argv = false -> fps ns' = fps ns) /\
  (supplied gives_host argv = false -> host ns' = host ns) /\
  (supplied gives_port argv = false -> port ns' = port ns).
Proof.
  induction argv as [|o rest IH]; intros ns ns' P; cbn in P.
  - injection P as <-. repeat split.
  - destruct (store ns o) as [ns1|] eqn:S; [|discriminate].
    specialize (IH _ _ P).
    destruct IH as (Iw & Ih & Iq & If & Io & Ip).
    unfold supplied in *.
    destruct o; cbn in S; try destruct (py_int v); cbn in S;
      try discriminate; injection S as <-; cbn [existsb orb
        gives_width gives_height gives_quality gives_fps gives_host gives_port];
      repeat split; intros D; try discriminate;
      first [ now rewrite (Iw D) | now rewrite (Ih D) | now rewrite (Iq D)
            | now rewrite (If D) | now rewrite (Io D) | now rewrite (Ip D) ].
Qed.

(** C7.  The command line [--quality 500] is accepted, [QUALITY] is 500
    and 500 is the quality the encoder is called with; likewise for
    [--quality 0].  No range is enforced. *)
Theorem quality_not_range_checked :
  (exists g bind_host bind_port,
      main [OptQuality "500"] = Serving g bind_host bind_port /\
      QUALITY g = 500 /\
      forall (env : Env Q) frame,
        encoded env g frame = imencode env (resize env frame 640 480) 500) /\
  (exists g bind_host bind_port,
      main [OptQuality "0"] = Serving g bind_host bind_port /\
      QUALITY g = 0).
Proof.
  split; do 3 eexists; repeat split.
Qed.

(** C8.  When the server starts, each of width, height, quality, FPS
    cap, host and port that the command line does not give has its
    default: 640, 480, 50, no cap (and then a generator never sleeps),
    0.0.0.0 and 5000.  Generators and [get_camera] leave the
    configuration as it was set at start. *)
Theorem defaults_when_not_supplied argv g bind_host bind_port :
  main argv = Serving g bind_host bind_port ->
  (supplied gives_width argv = false -> WIDTH g = 640) /\
  (supplied gives_height argv = false -> HEIGHT g = 480) /\
  (supplied gives_quality argv = false -> QUALITY g = 50) /\
  (supplied gives_fps argv = false ->
     FPS_LIMIT g = None /\
     forall (env : Env Q) fuel w,
       sleeps (trace (generate_frames env fuel g w)) = []) /\
  (supplied gives_host argv = false -> bind_host = "0.0.0.0"%string) /\
  (supplied gives_port argv = false -> bind_port = 5000) /\
  (forall (env : Env Q) fuel w,
      same_config g (globals (generate_frames env fuel g w))) /\
  (forall (env : Env Q) n w, same_config g (fst (calls env n g w))).
Proof.
  unfold main, parse_args. intros M.
  destruct (parse_from defaults argv) as [args|] eqn:P; [|discriminate].
  destruct (list_devices args); [discriminate|].
  injection M as <- <- <-.
  destruct (parse_from_keeps argv _ _ P) as (Iw & Ih & Iq & If & Io & Ip).
  cbn [WIDTH HEIGHT QUALITY FPS_LIMIT].
  split; [intros D; now rewrite (Iw D)|].
  split; [intros D; now rewrite (Ih D)|].
  split; [intros D; now rewrite (Iq D)|].
  split.
  { intros D. split; [now rewrite (If D)|].
    intros env fuel w. apply uncapped_never_sleeps.
    cbn [FPS_LIMIT]. now rewrite (If D). }
  split; [intros D; now rewrite (Io D)|].
  split; [intros D; now rewrite (Ip D)|].
  split.
  - intros env fuel w. apply generate_frames_config.
  - intros env n w. apply calls_config.
Qed.

End CommandLine.

(** ** The claim on the launcher *)

Section LauncherClaims.

Import Launcher.

(** In stream mode the script leaves before any command when one of
    the two addresses is false in Python's sense. *)
Lemma stream_mode_exits_early a :
  a_mode a = Stream ->
  py_not (a_remote a) || py_not (a_local a) = true ->
  main a = ([], Some exit_message).
Proof.
  intros M N. unfold main. now rewrite M, N.
Qed.

(** C10.  In stream mode, when [--remote] or [--local] is not given,
    the script exits with the message [stream mode requires --remote
    and --local] and hands no command to a shell: the wrapper script is
    neither written to the remote host nor run there. *)
Theorem stream_mode_needs_remote_and_local a :
  a_mode a = Stream ->
  a_remote a = None \/ a_local a = None ->
  main a = ([], Some "stream mode requires --remote and --local"%string) /\
  commands (fst (main a)) = [].
Proof.
  intros M N.
  assert (E : main a = ([], Some exit_message)).
  { apply stream_mode_exits_early; [exact M|].
    destruct N as [-> | ->]; cbn; [reflexivity|apply orb_true_r]. }
  rewrite E. split; reflexivity.
Qed.

End LauncherClaims.

(** ** The claims at sample inputs *)

Lemma open_failure_leaves_dead_capture_witness :
  let '(_, r, g1, w1) := get_camera Sample.busy module_globals world0 in
  r = inl (RuntimeError (DEVICE module_globals)) /\
  exists cam,
    camera g1 = Some cam /\ cap_opened cam = false /\
    get_camera Sample.busy g1 w1 = ([], inr cam, g1, w1) /\
    forall fuel,
      outcome (generate_frames Sample.busy (S fuel) g1 w1) = Stopped /\
      yields (trace (generate_frames Sample.busy (S fuel) g1 w1)) = [].
Proof.
  apply (open_failure_leaves_dead_capture Sample.busy module_globals world0);
    reflexivity.
Defined.

Lemma segments_are_multipart_witness :
  let '(ev, _, _, _) :=
    loop_body Sample.two_frames module_globals Sample.open_capture
              Sample.session0 world0 in
  yields ev = [spec_segment_head ++ Sample.jpeg0 ++ spec_segment_tail].
Proof.
  apply (proj1 (segments_are_multipart Sample.two_frames module_globals)
               Sample.open_capture Sample.session0 world0
               Sample.frame0 Sample.jpeg0);
    reflexivity.
Defined.

Lemma read_failure_ends_stream_witness :
  let r := generate_frames Sample.two_frames 3 module_globals world0 in
  outcome r = Stopped /\
  yields (trace r) =
    map (fun k => segment ((fun _ => Sample.jpeg0) k)) (seq (reads world0) 2) /\
  List.length (yields (trace r)) = 2%nat /\
  all_reads (trace r) = 3%nat /\
  reads (world r) = (reads world0 + 3)%nat.
Proof.
  apply (proj2 (read_failure_ends_stream Sample.two_frames module_globals)
               (fun _ => Sample.frame0) (fun _ => Sample.jpeg0) world0 2%nat).
  - reflexivity.
  - intros k Hk. cbn in Hk.
    assert (K : k = 0%nat \/ k = 1%nat) by lia.
    destruct K as [-> | ->]; split; reflexivity.
  - reflexivity.
  - lia.
Defined.

Lemma get_camera_idempotent_witness :
  let cam := {| cap_id := 0; cap_opened := true |} in
  let g1 := set_camera (Some cam) module_globals in
  let w1 := {| opens := 1; reads := 0; ticks := 0 |} in
  get_camera Sample.two_frames g1 w1 = ([], inr cam, g1, w1) /\
  (forall n, calls Sample.two_frames n g1 w1 = (g1, w1)) /\
  (opens w1 <= S (opens world0))%nat /\
  (forall n,
      (opens (snd (calls Sample.two_frames n module_globals world0))
       <= S (opens world0))%nat).
Proof.
  eapply (get_camera_idempotent Sample.two_frames module_globals world0).
  reflexivity.
Defined.


Lemma defaults_when_not_supplied_witness :
  let g := {| camera := None; DEVICE := DevPath "/dev/video10";
              QUALITY := 50; WIDTH := 640; HEIGHT := 480;
              FPS_LIMIT := None; DEBUG := true |} in
  WIDTH g = 640 /\ HEIGHT g = 480 /\ QUALITY g = 50 /\ FPS_LIMIT g = None.
Proof.
  cbv zeta.
  destruct (defaults_when_not_supplied Sample.device_and_debug _ _ _ eq_refl)
    as (Dw & Dh & Dq & Df & _).
  exact (conj (Dw eq_refl)
           (conj (Dh eq_refl) (conj (Dq eq_refl) (proj1 (Df eq_refl))))).
Defined.


Lemma stream_mode_needs_remote_and_local_witness :
  Launcher.main Sample.stream_without_remote =
    ([], Some "stream mode requires --remote and --local"%string) /\
  Launcher.commands (fst (Launcher.main Sample.stream_without_remote)) = [].
Proof.
  apply (stream_mode_needs_remote_and_local Sample.stream_without_remote).
  - reflexivity.
  - left. reflexivity.
Defined.

(** * Further properties *)

(** ** The launcher *)

Section LauncherMore.

Import Launcher.

(** X1.  The launcher exits with its message exactly in stream mode with
    [--remote] or [--local] absent or empty; when it exits it has run
    nothing, and otherwise it hands at least one command to a shell. *)
Theorem launcher_exit_characterised a :
  (snd (main a) = Some "stream mode requires --remote and --local"%string <->
   a_mode a = Stream /\ py_not (a_remote a) || py_not (a_local a) = true) /\
  match snd (main a) with
  | Some _ => fst (main a) = []
  | None => (1 <= List.length (commands (fst (main a))))%nat
  end.
Proof.
  unfold main.
  destruct (a_mode a) eqn:M;
    try (split; [split; [discriminate|intros [? _]; discriminate]|cbn; lia]).
  destruct (py_not (a_remote a) || py_not (a_local a)) eqn:N; cbn.
  - split; [|reflexivity]. split; [now split|reflexivity].
  - split; [|lia]. split; [discriminate|intros [_ ?]; discriminate].
Qed.

(** X2.  Mode [all] runs what [listen] runs, in the background, then
    what [web] runs, and ends by terminating the background process. *)
Theorem all_mode_is_listen_and_web r l p u wp d :
  let args m := {| a_mode := m; a_remote := r; a_local := l; a_port := p;
                   a_udp := u; a_web_port := wp; a_device := d |} in
  commands (fst (main (args All))) =
    commands (fst (main (args Listen))) ++ commands (fst (main (args Web))) /\
  (exists c, hd Terminate (fst (main (args All))) = Popen c) /\
  last (fst (main (args All))) (Run EmptyString) = Terminate /\
  snd (main (args All)) = None.
Proof.
  cbv zeta. repeat split. eexists. reflexivity.
Qed.

End LauncherMore.

(** ** The command line of the server *)

Section CommandLineMore.

Import Cli CliMore.

(** The parser of [Cli] is the parser of [Startup] at [py_int]. *)
Lemma cli_main_is_startup argv : Cli.main argv = Startup.main py_int argv.
Proof.
  unfold Cli.main, Startup.main, Cli.parse_args, Startup.parse_args.
  assert (P : forall ns, Cli.parse_from ns argv = Startup.parse_from py_int ns argv).
  { induction argv as [|o rest IH]; intros ns; [reflexivity|].
    cbn [Cli.parse_from Startup.parse_from].
    change (Startup.store py_int ns o) with (Cli.store ns o).
    destruct (Cli.store ns o); [apply IH|reflexivity]. }
  now rewrite P.
Qed.

Variable int_of : string -> option Z.

Lemma store_fails ns o :
  Startup.store int_of ns o = None <-> Startup.refused int_of o = true.
Proof.
  destruct o; cbn; try destruct (int_of v); cbn; split; congruence.
Qed.

Lemma parse_from_fails argv : forall ns,
  Startup.parse_from int_of ns argv = None <->
  existsb (Startup.refused int_of) argv = true.
Proof.
  induction argv as [|o rest IH]; intros ns; cbn.
  - split; discriminate.
  - pose proof (store_fails ns o) as S.
    destruct (Startup.store int_of ns o) as [ns1|].
    + destruct (Startup.refused int_of o); cbn.
      * destruct S as [_ S]. now specialize (S eq_refl).
      * apply IH.
    + destruct S as [S _]. rewrite (S eq_refl). cbn. split; reflexivity.
Qed.

(** The flags and the device a parse ends with. *)
Lemma parse_from_flags argv : forall ns ns',
  Startup.parse_from int_of ns argv = Some ns' ->
  list_devices ns' = list_devices ns || supplied gives_list_devices argv /\
  debug ns' = debug ns || supplied gives_debug argv /\
  (supplied gives_device argv = false -> device ns' = device ns) /\
  (forall pre v rest,
      argv = pre ++ OptDevice v :: rest ->
      supplied gives_device rest = false -> device ns' = v).
Proof.
  unfold supplied.
  induction argv as [|o rest IH]; intros ns ns' P; cbn in P.
  - injection P as <-. cbn. rewrite !orb_false_r. repeat split.
    intros [|? ?] ? ? E; discriminate.
  - destruct (Startup.store int_of ns o) as [ns1|] eqn:S; [|discriminate].
    destruct (IH _ _ P) as (Il & Id & Iv & Ilast).
    assert (L : list_devices ns1 = list_devices ns || gives_list_devices o)
      by (destruct o; cbn in S; try destruct (int_of v); cbn in S;
          try discriminate; injection S as <-; cbn;
          rewrite ?orb_false_r, ?orb_true_r; reflexivity).
    assert (D : debug ns1 = debug ns || gives_debug o)
      by (destruct o; cbn in S; try destruct (int_of v); cbn in S;
          try discriminate; injection S as <-; cbn;
          rewrite ?orb_false_r, ?orb_true_r; reflexivity).
    assert (V : device ns1 = match o with OptDevice v => v | _ => device ns end)
      by (destruct o; cbn in S; try destruct (int_of v); cbn in S;
          try discriminate; injection S as <-; reflexivity).
    cbn [existsb]. rewrite Il, Id, L, D, !orb_assoc.
    split; [reflexivity|]. split; [reflexivity|]. split.
    + intros G. apply orb_false_iff in G as [Go Gr].
      rewrite (Iv Gr), V. destruct o; try reflexivity; discriminate.
    + intros [|o' pre] v rest' E G; cbn in E; injection E as -> ->.
      * rewrite (Iv G), V. reflexivity.
      * eapply Ilast; [reflexivity|exact G].
Qed.


(** X4.  Whatever [int] is, when the server starts serving no capture
    is held yet, debug mode is on exactly when [--debug] was given, and
    the device comes from the text of the last [--device], or from the
    default text [0] when there is none: it is the index [int] returns
    for the text, and the text itself as a path when [int] refuses
    it. *)
Theorem device_and_debug_at_start argv g bind_host bind_port :
  Startup.main int_of argv = Serving g bind_host bind_port ->
  camera g = None /\
  DEBUG g = supplied gives_debug argv /\
  (supplied gives_device argv = false ->
   DEVICE g = match int_of "0" with
              | Some n => DevIndex n
              | None => DevPath "0"
              end) /\
  (forall pre v rest,
      argv = pre ++ OptDevice v :: rest ->
      supplied gives_device rest = false ->
      DEVICE g = match int_of v with
                 | Some n => DevIndex n
                 | None => DevPath v
                 end).
Proof.
  unfold Startup.main, Startup.parse_args. intros M.
  destruct (Startup.parse_from int_of defaults argv) as [args|] eqn:P;
    [|discriminate].
  destruct (list_devices args); [discriminate|].
  injection M as <- <- <-.
  destruct (parse_from_flags argv _ _ P) as (_ & D & V & Vlast).
  cbn [camera DEBUG DEVICE module_globals].
  split; [reflexivity|]. split; [|split].
  - rewrite D. cbn. now destruct (supplied gives_debug argv).
  - intros G. now rewrite (V G).
  - intros pre v rest E G. now rewrite (Vlast pre v rest E G).
Qed.

End CommandLineMore.

Lemma device_and_debug_at_start_witness :
  let g := {| camera := None; DEVICE := DevPath "/dev/video10";
              QUALITY := 50; WIDTH := 640; HEIGHT := 480;
              FPS_LIMIT := None; DEBUG := true |} in
  camera g = None /\
  DEBUG g = Cli.supplied CliMore.gives_debug Sample.device_and_debug /\
  DEVICE g = match Cli.py_int "/dev/video10" with
             | Some n => DevIndex n
             | None => DevPath "/dev/video10"
             end.
Proof.
  cbv zeta.
  destruct (device_and_debug_at_start Cli.py_int Sample.device_and_debug
              _ _ _ eq_refl)
    as (Dc & Dd & _ & Dv).
  exact (conj Dc (conj Dd
           (Dv [] "/dev/video10"%string [Cli.OptDebug] eq_refl eq_refl))).
Defined.

(** ** Generators *)

Section GeneratorsMore.

Context {T : Type} `{Clock T}.
Variable env : Env T.

(** The capture a generator leaves in [camera], and the captures it
    constructs. *)
Lemma generate_frames_camera g fuel w :
  camera (globals (generate_frames env fuel g w)) =
    Some (match camera g with
          | Some c => c
          | None => {| cap_id := opens w; cap_opened := open_ok env (opens w) |}
          end) /\
  opens (world (generate_frames env fuel g w)) =
    match camera g with
    | Some _ => opens w
    | None => S (opens w)
    end.
Proof.
  unfold generate_frames, get_camera.
  destruct (camera g) as [c|] eqn:C.
  - known.
    match goal with
    | |- context [loop env fuel g c ?s0 ?w2] =>
        pose proof (loop_counts env fuel g c s0 w2) as L;
        destruct (loop env fuel g c s0 w2) as [[[evs st] s2] w3]
    end.
    destruct L as (_ & _ & Lo). cbn [globals world opens] in *.
    split; [exact C|exact Lo].
  - unfold VideoCapture. known. cbn [cap_opened].
    destruct (open_ok env (opens w)); cbn [negb]; known.
    + match goal with
      | |- context [loop env fuel ?g1 ?c ?s0 ?w2] =>
          pose proof (loop_counts env fuel g1 c s0 w2) as L;
          destruct (loop env fuel g1 c s0 w2) as [[[evs st] s2] w3]
      end.
      destruct L as (_ & _ & Lo). cbn [globals world opens] in *.
      split; [reflexivity|exact Lo].
    + cbn [globals world opens]. split; reflexivity.
Qed.

(** Every segment of a generator is [segment] of some bytes. *)
Lemma generate_frames_yields_segments g fuel w :
  Forall (fun seg => exists jpeg, seg = segment jpeg)
         (yields (trace (generate_frames env fuel g w))).
Proof.
  unfold generate_frames.
  pose proof (get_camera_cases env g w) as G.
  destruct (get_camera env g w) as [[[ev0 r] g1] w1].
  destruct G as (_ & Gy & _).
  destruct r as [e|cam]; known.
  - cbn [trace]. rewrite Gy. constructor.
  - match goal with
    | |- context [loop env fuel g1 cam ?s0 ?w2] =>
        pose proof (loop_yields env fuel g1 cam s0 w2) as L;
        destruct (loop env fuel g1 cam s0 w2) as [[[evs st] s2] w3]
    end.
    cbn [trace]. rewrite !yields_app, Gy. cbn.
    eapply Forall_impl; [|exact L].
    intros seg (_ & _ & jpeg & _ & _ & ->). now exists jpeg.
Qed.

(** A generator on a capture that is not opened yields nothing and
    leaves the device, the globals and the world's counters alone. *)
Lemma dead_capture_streams_nothing g cam fuel w :
  camera g = Some cam -> cap_opened cam = false ->
  yields (trace (generate_frames env fuel g w)) = [] /\
  reads (world (generate_frames env fuel g w)) = reads w /\
  globals (generate_frames env fuel g w) = g.
Proof.
  intros C O. unfold generate_frames, get_camera. rewrite C. known.
  destruct fuel as [|fuel].
  - cbn. repeat split.
  - rewrite loop_S.
    match goal with
    | |- context [loop_body env g cam ?s0 ?w2] =>
        pose proof (loop_body_cases env g cam s0 w2) as B;
        destruct (loop_body env g cam s0 w2) as [[[ev fl] s1] w1]
    end.
    unfold next_frame in B. rewrite O in B.
    destruct B as (_ & _ & -> & By & _ & _ & _ & Br).
    cbn [trace world globals]. rewrite !yields_app, By.
    repeat split. exact Br.
Qed.

(** A device that delivers encodable frames for as long as the loop
    turns: every turn yields the segment of the next frame. *)
Lemma loop_all_good (frames : nat -> Frame) (jpegs : nat -> list byte)
      g cam (Hcam : cap_opened cam = true) fuel :
  forall s w,
    (forall k, (reads w <= k < reads w + fuel)%nat ->
               dev_read env k = Some (frames k) /\
               encoded env g (frames k) = Some (jpegs k)) ->
    let '(ev, st, s', w') := loop env fuel g cam s w in
    st = Running /\
    yields ev = map (fun k => segment (jpegs k)) (seq (reads w) fuel) /\
    reads w' = (reads w + fuel)%nat /\
    frame_count s' = frame_count s + Z.of_nat fuel.
Proof.
  induction fuel as [|fuel IH]; intros s w Hgood.
  - cbn. repeat split; lia.
  - rewrite loop_S.
    pose proof (loop_body_cases env g cam s w) as B.
    destruct (loop_body env g cam s w) as [[[ev fl] s1] w1].
    destruct B as (_ & _ & B). unfold next_frame in B. rewrite Hcam in B.
    destruct (Hgood (reads w)) as [Hr He]; [lia|].
    rewrite Hr in B. destruct B as (Br & Bc & _ & B).
    rewrite He in B. destruct B as (-> & By & _).
    specialize (IH s1 w1).
    destruct (loop env fuel g cam s1 w1) as [[[evs st] s2] w2].
    rewrite Br in IH.
    destruct IH as (-> & Iy & Ir & Ic).
    + intros k Hk. apply Hgood. lia.
    + rewrite yields_app, By, Iy, Ir, Ic, Bc. cbn [seq map app].
      repeat split; lia.
Qed.

Lemma generate_frames_all_good (frames : nat -> Frame) (jpegs : nat -> list byte)
      g w fuel :
  will_open env g w = true ->
  (forall k, (reads w <= k < reads w + fuel)%nat ->
             dev_read env k = Some (frames k) /\
             encoded env g (frames k) = Some (jpegs k)) ->
  let r := generate_frames env fuel g w in
  yields (trace r) = map (fun k => segment (jpegs k)) (seq (reads w) fuel) /\
  reads (world r) = (reads w + fuel)%nat /\
  option_map frame_count (session r) = Some (Z.of_nat fuel) /\
  outcome r = Running /\
  will_open env (globals r) (world r) = true /\
  same_config g (globals r).
Proof.
  intros O Hgood. cbv zeta.
  pose proof (generate_frames_camera g fuel w) as [Cam _].
  revert Cam. unfold generate_frames.
  pose proof (get_camera_cases env g w) as G.
  destruct (get_camera env g w) as [[[ev0 r] g1] w1].
  destruct G as (Gc & Gy & _ & _ & _ & _ & Gr & _ & G).
  destruct r as [e|cam]; known.
  - destruct G as (_ & C & _). congruence.
  - destruct G as (Gcam & Go). rewrite O in Go.
    match goal with
    | |- context [loop env fuel g1 cam ?s0 ?w2] =>
        pose proof (loop_all_good frames jpegs g1 cam Go fuel s0 w2) as L;
        destruct (loop env fuel g1 cam s0 w2) as [[[evs st] s2] w3]
    end.
    cbn [reads] in L. rewrite Gr in L.
    destruct L as (-> & Ly & Lr & Lc).
    + intros k Hk. destruct (Hgood k Hk) as [R E]. split; [exact R|].
      now rewrite (encoded_same_config env g g1 _ Gc).
    + cbn [trace world session outcome globals option_map frame_count] in *.
      intros _. rewrite !yields_app, Gy, Ly.
      unfold will_open. rewrite Gcam.
      repeat split; try assumption; try apply Gc. cbn in Lc. now rewrite Lc.
Qed.

(** Two configurations with the same camera and device that the encoder
    cannot tell apart give the same segments, the same end and the same
    number of reads. *)
Lemma generate_frames_config_only g g' fuel w :
  camera g' = camera g -> DEVICE g' = DEVICE g ->
  (forall frame, encoded env g' frame = encoded env g frame) ->
  yields (trace (generate_frames env fuel g' w)) =
    yields (trace (generate_frames env fuel g w)) /\
  outcome (generate_frames env fuel g' w) =
    outcome (generate_frames env fuel g w) /\
  all_reads (trace (generate_frames env fuel g' w)) =
    all_reads (trace (generate_frames env fuel g w)).
Proof.
  intros C D E. unfold generate_frames.
  pose proof (get_camera_cases env g w) as G.
  pose proof (get_camera_cases env g' w) as G'.
  assert (R : snd (fst (fst (get_camera env g' w))) =
              snd (fst (fst (get_camera env g w)))).
  { unfold get_camera. rewrite C, D.
    destruct (camera g); [reflexivity|]. unfold VideoCapture. known.
    cbn [cap_opened]. destruct (open_ok env (opens w)); reflexivity. }
  destruct (get_camera env g w) as [[[ev0 r] g1] w1].
  destruct (get_camera env g' w) as [[[ev0' r'] g1'] w1'].
  cbn [fst snd] in R. subst r'.
  destruct G as (Gc & Gy & _ & _ & Ga & _ & Gr & _).
  destruct G' as (Gc' & Gy' & _ & _ & Ga' & _ & Gr' & _).
  destruct r as [e|cam]; known; cbn [trace outcome].
  - repeat split; congruence.
  - match goal with
    | |- context [loop env fuel g1' cam ?s0' ?w2'] =>
        match goal with
        | |- context [loop env fuel g1 cam ?s0 ?w2] =>
            pose proof (loop_config_only env fuel g1' g1 cam s0' s0 w2' w2) as L;
            destruct (loop env fuel g1 cam s0 w2) as [[[evs st] s2] w3];
            destruct (loop env fuel g1' cam s0' w2') as [[[evs' st'] s2'] w3']
        end
    end.
    cbn [trace outcome]. destruct L as (-> & Ly & La).
    + cbn [reads]. congruence.
    + intros frame.
      rewrite (encoded_same_config env g g1 frame Gc),
              (encoded_same_config env g' g1' frame Gc'). symmetry. apply E.
    + rewrite !yields_app, !all_reads_app, Gy, Gy', Ga, Ga', Ly, La.
      repeat split.
Qed.

End GeneratorsMore.

Section GeneratorClaims.

Context {T : Type} `{Clock T}.
Variable env : Env T.

(** X6.  A generator started after another one uses the same capture,
    counts its frames from zero, and goes on from where the device
    stands: with frames that all encode, the first generator yields the
    segments of the frames numbered from the world's read counter, the
    second one those that follow, and no capture is constructed for the
    second. *)
Theorem later_viewer_continues
        (frames : nat -> Frame) (jpegs : nat -> list byte) g w a b :
  will_open env g w = true ->
  (forall k, (reads w <= k < reads w + (a + b))%nat ->
             dev_read env k = Some (frames k) /\
             encoded env g (frames k) = Some (jpegs k)) ->
  let r1 := generate_frames env a g w in
  let r2 := generate_frames env b (globals r1) (world r1) in
  yields (trace r1) = map (fun k => segment (jpegs k)) (seq (reads w) a) /\
  yields (trace r2) = map (fun k => segment (jpegs k)) (seq (reads w + a) b) /\
  option_map frame_count (session r2) = Some (Z.of_nat b) /\
  camera (globals r2) = camera (globals r1) /\
  opens (world r2) = opens (world r1).
Proof.
  intros O Hgood. cbv zeta.
  destruct (generate_frames_all_good env frames jpegs g w a O)
    as (Y1 & R1 & _ & _ & O1 & C1).
  { intros k Hk. apply Hgood. lia. }
  destruct (generate_frames_all_good env frames jpegs
              (globals (generate_frames env a g w))
              (world (generate_frames env a g w)) b O1)
    as (Y2 & _ & S2 & _).
  { intros k Hk. rewrite R1 in Hk. destruct (Hgood k) as [R E]; [lia|].
    split; [exact R|]. now rewrite (encoded_same_config env g _ _ C1). }
  rewrite R1 in Y2.
  pose proof (generate_frames_camera env g a w) as [Cam1 _].
  pose proof (generate_frames_camera env
                (globals (generate_frames env a g w)) b
                (world (generate_frames env a g w))) as [Cam2 Op2].
  rewrite Cam1 in Cam2, Op2.
  repeat split; try assumption. now rewrite Cam1.
Qed.

(** X7.  Debug mode changes only what is logged: with and without it a
    generator yields the same segments, ends the same way and reads the
    device as often. *)
Theorem debug_only_logs b g fuel w :
  yields (trace (generate_frames env fuel (set_debug b g) w)) =
    yields (trace (generate_frames env fuel g w)) /\
  outcome (generate_frames env fuel (set_debug b g) w) =
    outcome (generate_frames env fuel g w) /\
  all_reads (trace (generate_frames env fuel (set_debug b g) w)) =
    all_reads (trace (generate_frames env fuel g w)).
Proof.
  apply generate_frames_config_only; reflexivity.
Qed.

(** X8.  Framing adds 39 bytes to a payload and loses nothing: two
    payloads with the same segment are the same payload. *)
Theorem segment_framing :
  (forall jpeg, List.length (segment jpeg) = (List.length jpeg + 39)%nat) /\
  (forall a b, segment a = segment b -> a = b).
Proof.
  split.
  - intros jpeg. unfold segment. rewrite !length_app. cbn. lia.
  - intros a b E. unfold segment in E.
    apply app_inv_head in E. now apply app_inv_tail in E.
Qed.

(** X9.  The content type that [video_feed] announces names the boundary
    the segments use: every segment of the response starts with two
    dashes, the announced boundary and CR LF. *)
Theorem feed_boundary_matches turns g w :
  exists mimetype run boundary,
    snd (video_feed env turns g w) = Stream mimetype run /\
    boundary_of mimetype = Some boundary /\
    Forall (fun seg => exists rest,
                seg = Bytes.lit ("--" ++ boundary) ++ Bytes.CRLF ++ rest)
           (yields (trace run)).
Proof.
  do 3 eexists. split; [reflexivity|]. split; [reflexivity|].
  eapply Forall_impl; [|apply generate_frames_yields_segments].
  intros seg (jpeg & ->). eexists. unfold segment. cbn. reflexivity.
Qed.

(** What a sequence of requests does to the capture. *)
Lemma serve_camera rqs : forall g w,
  let '(ev, _, g1, w1) := serve env rqs g w in
  same_config g g1 /\ releases ev = [] /\
  camera g1 =
    match camera g with
    | Some c => Some c
    | None =>
        if existsb asks_feed rqs
        then Some {| cap_id := opens w; cap_opened := open_ok env (opens w) |}
        else None
    end /\
  opens w1 =
    match camera g with
    | Some _ => opens w
    | None => if existsb asks_feed rqs then S (opens w) else opens w
    end.
Proof.
  induction rqs as [|rq rest IH]; intros g w; cbn [serve].
  - cbn. repeat split; now destruct (camera g).
  - destruct rq as [|turns|]; cbn [handle index video_feed health existsb asks_feed orb].
    + specialize (IH g w).
      destruct (serve env rest g w) as [[[evs rs] g2] w2].
      destruct IH as (Ic & Ir & Icam & Io). cbn. repeat split; assumption || apply Ic.
    + pose proof (generate_frames_camera env g turns w) as [Cam Op].
      pose proof (generate_frames_config env g turns w) as Cf.
      specialize (IH (globals (generate_frames env turns g w))
                     (world (generate_frames env turns g w))).
      destruct (serve env rest _ _) as [[[evs rs] g2] w2].
      destruct IH as (Ic & Ir & Icam & Io).
      rewrite Cam in Icam, Io. rewrite Op in Io.
      split; [eapply same_config_trans; eassumption|].
      split; [exact Ir|].
      destruct (camera g); split; assumption.
    + specialize (IH g w).
      destruct (serve env rest g w) as [[[evs rs] g2] w2].
      destruct IH as (Ic & Ir & Icam & Io). cbn. repeat split; assumption || apply Ic.
Qed.

(** X10.  Over the life of the server the capture is constructed by the
    first request for the feed and by nothing else, once; the shutdown
    releases it exactly once; and when no request asked for the feed no
    capture is constructed and nothing is released.  The configuration
    is the same at the end. *)
Theorem capture_life_cycle interrupted rqs g w :
  camera g = None ->
  let '(ev, _, g1, w1) := run_server env interrupted rqs g w in
  same_config g g1 /\
  if existsb asks_feed rqs
  then opens w1 = S (opens w) /\
       releases ev =
         [{| cap_id := opens w; cap_opened := open_ok env (opens w) |}]
  else opens w1 = opens w /\ releases ev = [].
Proof.
  intros C. unfold run_server.
  pose proof (serve_camera rqs g w) as S.
  destruct (serve env rqs g w) as [[[ev rs] g1] w1].
  destruct S as (Sc & Sr & Scam & So). rewrite C in Scam, So.
  split; [exact Sc|].
  unfold releases in *. rewrite !flat_map_app, Sr. unfold shutdown.
  destruct (existsb asks_feed rqs); rewrite Scam;
    destruct interrupted; cbn; split; congruence.
Qed.

Lemma unopenable_feed g w turns :
  unopenable env g w ->
  yields (trace (generate_frames env turns g w)) = [] /\
  reads (world (generate_frames env turns g w)) = reads w /\
  unopenable env (globals (generate_frames env turns g w))
             (world (generate_frames env turns g w)).
Proof.
  unfold unopenable at 1. intros U. unfold unopenable.
  destruct (camera g) as [cam|] eqn:C.
  - destruct (dead_capture_streams_nothing env g cam turns w C U)
      as (Y & R & G).
    rewrite G, C. repeat split; assumption.
  - pose proof (generate_frames_camera env g turns w) as [Cam _].
    rewrite C in Cam. rewrite Cam. cbn [cap_opened].
    unfold generate_frames, get_camera. rewrite C.
    unfold VideoCapture. known. cbn [cap_opened]. rewrite U. cbn [negb].
    known. cbn [trace world reads]. repeat split; try assumption.
Qed.

(** X11.  When the device does not open, no request for the feed ever
    gets a segment, and the device is never read: the first request
    raises, the later ones run on the capture that did not open. *)
Theorem unopenable_device_streams_nothing rqs : forall g w,
  camera g = None ->
  open_ok env (opens w) = false ->
  let '(_, rs, _, w1) := serve env rqs g w in
  streamed rs = [] /\ reads w1 = reads w.
Proof.
  intros g w C O.
  assert (U : unopenable env g w) by (unfold unopenable; now rewrite C).
  clear C O. revert g w U.
  induction rqs as [|rq rest IH]; intros g w U; cbn [serve].
  - split; reflexivity.
  - destruct rq as [|turns|]; cbn [handle index video_feed health].
    + specialize (IH g w U).
      destruct (serve env rest g w) as [[[evs rs] g2] w2]. exact IH.
    + destruct (unopenable_feed g w turns U) as (Y & R & U').
      specialize (IH _ _ U').
      destruct (serve env rest _ _) as [[[evs rs] g2] w2].
      destruct IH as (Is & Ir).
      cbn [streamed flat_map]. fold (streamed rs). rewrite Y, Is, Ir, R.
      split; reflexivity.
    + specialize (IH g w U).
      destruct (serve env rest g w) as [[[evs rs] g2] w2]. exact IH.
Qed.

(** What the first loop of the scan finds and does. *)
Lemma scan_indices_spec range : forall found w,
  let '(ev, found', w1) := scan_indices env range found w in
  scan_probes ev = range /\
  opens w1 = (opens w + List.length range)%nat /\
  scan_released ev = scan_devices ev /\
  found' = found ++ scan_devices ev /\
  scan_paths_logged ev = [] /\
  forall base,
    range = seq base (List.length range) ->
    scan_devices ev =
      filter (fun i => open_ok env (opens w + (i - base))) range.
Proof.
  induction range as [|i rest IH]; intros found w; cbn [scan_indices].
  - cbn. rewrite app_nil_r. repeat split; lia.
  - unfold VideoCapture. known. cbn [cap_opened].
    destruct (open_ok env (opens w)) eqn:O;
      match goal with
      | |- context [scan_indices env rest ?f ?w'] =>
          specialize (IH f w');
          destruct (scan_indices env rest f w') as [[ev found'] w1]
      end;
      destruct IH as (Ip & Io & Ir & If & Il & Is);
      unfold scan_probes, scan_devices, scan_released, scan_paths_logged in *;
      cbn [flat_map app opens List.length] in *.
    + split; [now rewrite Ip|]. split; [lia|]. split; [now rewrite Ir|].
      split; [rewrite If, <- app_assoc; reflexivity|]. split; [exact Il|].
      intros base E. cbn [seq] in E. injection E as -> E.
      cbn [filter]. rewrite Nat.sub_diag, Nat.add_0_r, O. f_equal.
      rewrite (Is (S base) E). apply filter_ext_in.
      intros k Hk. rewrite E in Hk. apply in_seq in Hk. f_equal. lia.
    + split; [now rewrite Ip|]. split; [lia|]. split; [exact Ir|].
      split; [exact If|]. split; [exact Il|].
      intros base E. cbn [seq] in E. injection E as -> E.
      cbn [filter]. rewrite Nat.sub_diag, Nat.add_0_r, O.
      rewrite (Is (S base) E). apply filter_ext_in.
      intros k Hk. rewrite E in Hk. apply in_seq in Hk. f_equal. lia.
Qed.

(** X12.  The scan of [--list-devices] constructs ten captures, for the
    indices 0 to 9 in order; it reports exactly those that opened and
    releases each of them, so that it leaves no capture open. *)
Theorem scan_releases_what_it_opens path_exists w :
  let '(ev, w1) := list_devices_scan env path_exists w in
  scan_probes ev = seq 0 10 /\
  opens w1 = (opens w + 10)%nat /\
  scan_devices ev = filter (fun i => open_ok env (opens w + i)) (seq 0 10) /\
  scan_released ev = scan_devices ev.
Proof.
  unfold list_devices_scan.
  pose proof (scan_indices_spec (seq 0 10) [] w) as S.
  destruct (scan_indices env (seq 0 10) [] w) as [[ev found] w1].
  destruct S as (Sp & So & Sr & Sf & Sl & Ss).
  assert (N : forall tr : list scan_event,
             scan_probes (tr ++ scan_paths path_exists found) = scan_probes tr /\
             scan_devices (tr ++ scan_paths path_exists found) = scan_devices tr /\
             scan_released (tr ++ scan_paths path_exists found) = scan_released tr).
  { intros tr. unfold scan_probes, scan_devices, scan_released.
    rewrite !flat_map_app.
    assert (Z : forall f : scan_event -> list nat,
               (forall p, f (ScanLogPath p) = []) ->
               flat_map f (scan_paths path_exists found) = []).
    { intros f Hf. unfold scan_paths.
      destruct (path_exists "/dev"%string); [|reflexivity].
      induction (seq 0 20) as [|i l IHl]; [reflexivity|]. cbn [flat_map].
      rewrite flat_map_app, IHl.
      destruct (path_exists (dev_path i)); [|reflexivity].
      destruct (negb _); cbn; rewrite ?Hf; reflexivity. }
    rewrite !Z by reflexivity. rewrite !app_nil_r. repeat split. }
  destruct (N ev) as (Np & Nd & Nr).
  change (scan_probes (ScanLogStart :: ?t)) with (scan_probes t).
  change (scan_devices (ScanLogStart :: ?t)) with (scan_devices t).
  change (scan_released (ScanLogStart :: ?t)) with (scan_released t).
  rewrite Np, Nd, Nr, Sp, So, Sr.
  repeat split.
  rewrite (Ss 0%nat eq_refl). apply filter_ext. intros i.
  now rewrite Nat.sub_0_r.
Qed.

(** X13.  After the indices the scan reports the paths [/dev/video0] to
    [/dev/video19] that exist, but not those whose index, below 10, has
    just opened; and it reports none when [/dev] does not exist. *)
Theorem scan_reports_unopened_paths path_exists w :
  let '(ev, _) := list_devices_scan env path_exists w in
  scan_paths_logged ev =
    if path_exists "/dev"%string then
      map dev_path
          (filter (fun i => path_exists (dev_path i) &&
                            negb ((i <? 10)%nat && open_ok env (opens w + i)))
                  (seq 0 20))
    else [].
Proof.
  unfold list_devices_scan.
  pose proof (scan_indices_spec (seq 0 10) [] w) as S.
  destruct (scan_indices env (seq 0 10) [] w) as [[ev found] w1].
  destruct S as (_ & _ & _ & Sf & Sl & Ss).
  change (scan_paths_logged (ScanLogStart :: ?t)) with (scan_paths_logged t).
  unfold scan_paths_logged in *. rewrite flat_map_app, Sl. cbn [app].
  unfold scan_paths. destruct (path_exists "/dev"%string); [|reflexivity].
  assert (F : forall i,
             existsb (Nat.eqb i) found =
             (i <? 10)%nat && open_ok env (opens w + i)).
  { intros i. cbn [app] in Sf. rewrite Sf, (Ss 0%nat eq_refl).
    apply eq_true_iff_eq. rewrite existsb_exists, andb_true_iff.
    split.
    - intros (k & Hk & E). apply Nat.eqb_eq in E. subst k.
      apply filter_In in Hk as [Hk O]. apply in_seq in Hk.
      rewrite Nat.sub_0_r in O. split; [apply Nat.ltb_lt; lia|exact O].
    - intros [L O]. apply Nat.ltb_lt in L. exists i.
      split; [|apply Nat.eqb_refl].
      apply filter_In. rewrite Nat.sub_0_r.
      split; [apply in_seq; lia|exact O]. }
  induction (seq 0 20) as [|i l IHl]; [reflexivity|].
  cbn [flat_map filter]. rewrite flat_map_app, IHl, F.
  destruct (path_exists (dev_path i)); cbn [andb]; [|reflexivity].
  destruct (negb _); reflexivity.
Qed.

End GeneratorClaims.

Lemma later_viewer_continues_witness :
  let r1 := generate_frames Sample.patient 2 module_globals world0 in
  let r2 := generate_frames Sample.patient 3 (globals r1) (world r1) in
  yields (trace r1) =
    map (fun k => segment ((fun _ => Sample.jpeg0) k)) (seq (reads world0) 2) /\
  yields (trace r2) =
    map (fun k => segment ((fun _ => Sample.jpeg0) k)) (seq (reads world0 + 2) 3) /\
  option_map frame_count (session r2) = Some (Z.of_nat 3) /\
  camera (globals r2) = camera (globals r1) /\
  opens (world r2) = opens (world r1).
Proof.
  apply (later_viewer_continues Sample.patient
           (fun _ => Sample.frame0) (fun _ => Sample.jpeg0)
           module_globals world0 2 3).
  - reflexivity.
  - intros k _. split; reflexivity.
Defined.

Lemma capture_life_cycle_witness :
  let '(ev, _, g1, w1) :=
    run_server Sample.two_frames true [GetHealth; GetVideoFeed 5; GetIndex]
               module_globals world0 in
  same_config module_globals g1 /\
  if existsb asks_feed [GetHealth; GetVideoFeed 5; GetIndex]
  then opens w1 = S (opens world0) /\
       releases ev =
         [{| cap_id := opens world0;
             cap_opened := open_ok Sample.two_frames (opens world0) |}]
  else opens w1 = opens world0 /\ releases ev = [].
Proof.
  apply (capture_life_cycle Sample.two_frames true
           [GetHealth; GetVideoFeed 5; GetIndex] module_globals world0).
  reflexivity.
Defined.

Lemma unopenable_device_streams_nothing_witness :
  let '(_, rs, _, w1) :=
    serve Sample.busy [GetVideoFeed 4; GetHealth; GetVideoFeed 4]
          module_globals world0 in
  streamed rs = [] /\ reads w1 = reads world0.
Proof.
  apply (unopenable_device_streams_nothing Sample.busy
           [GetVideoFeed 4; GetHealth; GetVideoFeed 4] module_globals world0);
    reflexivity.
Defined.

(** ** Encoder failures and exceptions *)

Section Cv2Claims.

Context {T : Type} `{Clock T}.
Variable cv : Faults.
Variable env : Env T.

(** A turn in which neither call raises is the turn of [loop_body]. *)
Lemma loop_body_cv2_no_fault g cam s w :
  (forall frame,
      next_frame env cam w = Some frame ->
      resize_raises cv frame (WIDTH g) (HEIGHT g) = false /\
      imencode_raises cv (resize env frame (WIDTH g) (HEIGHT g)) (QUALITY g)
      = false) ->
  loop_body_cv2 cv env g cam s w =
  let '(ev, fl, s', w') := loop_body env g cam s w in (ev, inr fl, s', w').
Proof.
  intros N. unfold loop_body_cv2, loop_body.
  pose proof (next_frame_pace env g cam s w) as P.
  destruct (pace env g s w) as [[ev1 s1] w1].
  rewrite <- P in N. unfold next_frame in N. unfold cam_read.
  destruct (cap_opened cam); [|reflexivity].
  destruct (dev_read env (reads w1)) as [frame|]; [|reflexivity].
  destruct (N frame eq_refl) as [R E]. rewrite R, E.
  destruct (log_stats env g _ _) as [[ev2 s3] w3].
  destruct (imencode env _ _); reflexivity.
Qed.


End Cv2Claims.



(** ** From the launcher to the server *)

Section LauncherToServer.

Import Cli CliMore Shell.

Local Open Scope string_scope.

Lemma append_empty_r s : s ++ EmptyString = s.
Proof. induction s as [|c s IH]; cbn; [reflexivity|now rewrite IH]. Qed.

Lemma append_char_assoc cur c w :
  (cur ++ String c EmptyString) ++ w = cur ++ String c w.
Proof. induction cur as [|d cur IH]; cbn; [reflexivity|now rewrite IH]. Qed.

Lemma plain_char_not_blank c :
  plain_char c = true -> (nat_of_ascii c =? 32)%nat = false.
Proof.
  unfold plain_char. destruct (Nat.eqb_spec (nat_of_ascii c) 32) as [E|];
    [|reflexivity].
  rewrite E. cbn. discriminate.
Qed.

(** A plain word ends at the blank that follows it. *)
Lemma fields_from_word w : forall cur r,
  all_plain w = true ->
  fields_from cur (w ++ String " " r) =
  match cur ++ w with
  | EmptyString => fields_from EmptyString r
  | word => word :: fields_from EmptyString r
  end.
Proof.
  induction w as [|c w IH]; intros cur r P.
  - rewrite append_empty_r. cbn. destruct cur; reflexivity.
  - cbn in P. apply andb_true_iff in P as [Pc Pw].
    cbn [append fields_from]. rewrite (plain_char_not_blank c Pc).
    rewrite (IH _ r Pw), append_char_assoc. reflexivity.
Qed.

Lemma fields_from_plain_word w r :
  plain_word w = true ->
  fields_from EmptyString (w ++ String " " r) = w :: fields_from EmptyString r.
Proof.
  intros P. destruct w as [|c w]; [discriminate|].
  cbn in P. apply andb_true_iff in P as [_ P].
  rewrite (fields_from_word (String c w) EmptyString r P). reflexivity.
Qed.

(** The words before the device, and the name of the next option. *)
Lemma fields_before_device x :
  fields_from EmptyString ("uv run camera_feed_server.py --device " ++ x) =
  "uv" :: "run" :: "camera_feed_server.py" :: "--device"
       :: fields_from EmptyString x.
Proof. vm_compute. reflexivity. Qed.

Lemma fields_before_port x :
  fields_from EmptyString ("--port " ++ x) =
  "--port" :: fields_from EmptyString x.
Proof. vm_compute. reflexivity. Qed.

Lemma options_of_device v rest :
  options_of ("--device" :: v :: rest) =
  if plain_word v then option_map (cons (OptDevice v)) (options_of rest)
  else None.
Proof. reflexivity. Qed.

Lemma options_of_port v rest :
  options_of ("--port" :: v :: rest) =
  if plain_word v then option_map (cons (OptPort v)) (options_of rest)
  else None.
Proof. reflexivity. Qed.

Variable int_of : string -> option Z.

(** X5.  For a device [D] and a port [P] that are plain words, the
    command of the launcher's [web] and [all] modes falls into the words
    [uv run camera_feed_server.py --device D --port P --width 1280
    --height 720], whose options are [web_options]; and for an [int]
    that reads [1280] and [720] as these numbers, a server started with
    these options serves 1280x720 at quality 50 with no cap and no debug
    mode on 0.0.0.0 and the port [int(P)], from the device [D], and ends
    in a usage error when [int] refuses [P]. *)
Theorem web_mode_server_configuration a :
  plain_word (Launcher.a_device a) = true ->
  plain_word (Launcher.a_web_port a) = true ->
  int_of "1280" = Some 1280%Z ->
  int_of "720" = Some 720%Z ->
  fields (Launcher.serve_web a) =
    ["uv"; "run"; "camera_feed_server.py";
     "--device"; Launcher.a_device a; "--port"; Launcher.a_web_port a;
     "--width"; "1280"; "--height"; "720"] /\
  options_of (skipn 3 (fields (Launcher.serve_web a))) = Some (web_options a) /\
  match int_of (Launcher.a_web_port a) with
  | Some p =>
      Startup.main int_of (web_options a) =
        Serving {| camera := None;
                   DEVICE := match int_of (Launcher.a_device a) with
                             | Some n => DevIndex n
                             | None => DevPath (Launcher.a_device a)
                             end;
                   QUALITY := 50; WIDTH := 1280; HEIGHT := 720;
                   FPS_LIMIT := None; DEBUG := false |}
                "0.0.0.0" p
  | None => Startup.main int_of (web_options a) = UsageError
  end.
Proof.
  intros Pd Pp I1280 I720.
  assert (F : fields (Launcher.serve_web a) =
              ["uv"; "run"; "camera_feed_server.py";
               "--device"; Launcher.a_device a;
               "--port"; Launcher.a_web_port a;
               "--width"; "1280"; "--height"; "720"]).
  { unfold fields, Launcher.serve_web.
    rewrite fields_before_device.
    change (" --port " ++ ?y) with (String " " ("--port " ++ y)).
    rewrite (fields_from_plain_word _ _ Pd), fields_before_port.
    change (" --width 1280 --height 720")
      with (String " " "--width 1280 --height 720").
    rewrite (fields_from_plain_word _ _ Pp). reflexivity. }
  split; [exact F|]. split.
  - rewrite F. cbn [skipn]. unfold web_options.
    rewrite options_of_device, Pd, options_of_port, Pp. reflexivity.
  - unfold Startup.main, Startup.parse_args, web_options.
    cbn [Startup.parse_from Startup.store option_map].
    destruct (int_of (Launcher.a_web_port a)) as [p|]; cbn [option_map];
      [|reflexivity].
    rewrite I1280. cbn [option_map]. rewrite I720. reflexivity.
Qed.

End LauncherToServer.

Lemma web_mode_server_configuration_witness :
  let a := {| Launcher.a_mode := Launcher.Web;
              Launcher.a_remote := None;
              Launcher.a_local := None;
              Launcher.a_port := "5000"%string;
              Launcher.a_udp := false;
              Launcher.a_web_port := "8080"%string;
              Launcher.a_device := "/dev/video2"%string |} in
  Shell.fields (Launcher.serve_web a) =
    ["uv"; "run"; "camera_feed_server.py";
     "--device"; "/dev/video2"; "--port"; "8080";
     "--width"; "1280"; "--height"; "720"]%string /\
  Startup.main Cli.py_int (CliMore.web_options a) =
    Cli.Serving {| camera := None; DEVICE := DevPath "/dev/video2";
                   QUALITY := 50; WIDTH := 1280; HEIGHT := 720;
                   FPS_LIMIT := None; DEBUG := false |}
                "0.0.0.0" 8080.
Proof.
  cbv zeta.
  destruct (web_mode_server_configuration Cli.py_int
              {| Launcher.a_mode := Launcher.Web;
                 Launcher.a_remote := None;
                 Launcher.a_local := None;
                 Launcher.a_port := "5000"%string;
                 Launcher.a_udp := false;
                 Launcher.a_web_port := "8080"%string;
                 Launcher.a_device := "/dev/video2"%string |}
              eq_refl eq_refl eq_refl eq_refl)
    as (F & _ & M).
  exact (conj F M).
Defined.
